(** * simple-sqsd: the supervisor package and the simplesqsd command

    A shallow embedding of the worker pool of [supervisor] (pool start,
    cooperative shutdown, the receive / dispatch / delete cycle and the
    request signature) and of the configuration reading of
    [cmd/simplesqsd], with the properties of the specification proved
    over it.

    Go strings are byte strings: they are modelled as [string] (one
    [ascii] per byte), [[]byte] as [list byte], and [int] as [Z].  The
    packages of the Go standard library the code calls ([strings],
    [strconv], [encoding/hex], [crypto/sha256], [crypto/hmac],
    [net/textproto]) are modelled by executable definitions, one module
    per package. *)

From Stdlib Require Import ZArith List Bool Lia.
From Stdlib.Strings Require Import Ascii String Byte.
From stdpp Require Import base option list strings gmap.
Import ListNotations.

Local Open Scope Z_scope.

(** ** Bytes and strings *)

Definition Z_of_byte (b : byte) : Z := Z.of_N (Byte.to_N b).

Definition byte_of_Z (z : Z) : byte :=
  match Byte.of_N (Z.to_N (z mod 256)) with
  | Some b => b
  | None => x00
  end.

(** [[]byte(s)] and [string(b)] *)
Definition bytes_of_string (s : string) : list byte := list_byte_of_string s.
Definition string_of_bytes (b : list byte) : string := string_of_list_byte b.

Definition Z_of_ascii (a : ascii) : Z := Z.of_N (N_of_ascii a).

(** The one-byte string of the Go literal for a line feed. *)
Definition newline : string := String "010"%char EmptyString.

(** ** package strings *)
Module gostrings.

Definition inCutset (cutset : string) (a : ascii) : bool :=
  existsb (Ascii.eqb a) (list_ascii_of_string cutset).

(** [strings.TrimRight(s, cutset)] for a cutset of ASCII bytes: the
    trailing bytes of [s] that occur in [cutset] are removed. *)
Fixpoint TrimRight (s cutset : string) : string :=
  match s with
  | EmptyString => EmptyString
  | String a t =>
      match TrimRight t cutset with
      | EmptyString =>
          if inCutset cutset a then EmptyString else String a EmptyString
      | r => String a r
      end
  end.

(** The last byte of a string, if any. *)
Fixpoint lastByte (s : string) : option ascii :=
  match s with
  | EmptyString => None
  | String a EmptyString => Some a
  | String _ t => lastByte t
  end.

(** [strings.Repeat(s, n)] *)
Fixpoint Repeat (s : string) (n : nat) : string :=
  match n with
  | O => EmptyString
  | S k => s +:+ Repeat s k
  end.

End gostrings.

(** ** package encoding/hex *)
Module hex.

Definition hextable : string := "0123456789abcdef".

Definition digit (n : Z) : ascii :=
  match String.get (Z.to_nat n) hextable with
  | Some c => c
  | None => "0"%char
  end.

(** [hex.EncodeToString]: two characters per byte, high nibble first *)
Fixpoint EncodeToString (src : list byte) : string :=
  match src with
  | [] => EmptyString
  | v :: rest =>
      String (digit (Z.shiftr (Z_of_byte v) 4))
        (String (digit (Z.land (Z_of_byte v) 15)) (EncodeToString rest))
  end.


End hex.

(** ** package crypto/sha256 *)
Module sha256.

Definition Size : nat := 32.
Definition BlockSize : nat := 64.

(** 32-bit words are [Z] reduced modulo 2^32 after every addition. *)
Definition u32 (x : Z) : Z := x mod 2 ^ 32.
Definition add32 (x y : Z) : Z := u32 (x + y).
Definition not32 (x : Z) : Z := Z.lxor x 0xffffffff.
Definition rotr (x n : Z) : Z :=
  Z.lor (Z.shiftr x n) (u32 (Z.shiftl x (32 - n))).

Definition Ch (x y z : Z) : Z := Z.lxor (Z.land x y) (Z.land (not32 x) z).
Definition Maj (x y z : Z) : Z :=
  Z.lxor (Z.lxor (Z.land x y) (Z.land x z)) (Z.land y z).
Definition bigSigma0 (x : Z) : Z :=
  Z.lxor (Z.lxor (rotr x 2) (rotr x 13)) (rotr x 22).
Definition bigSigma1 (x : Z) : Z :=
  Z.lxor (Z.lxor (rotr x 6) (rotr x 11)) (rotr x 25).
Definition smallSigma0 (x : Z) : Z :=
  Z.lxor (Z.lxor (rotr x 7) (rotr x 18)) (Z.shiftr x 3).
Definition smallSigma1 (x : Z) : Z :=
  Z.lxor (Z.lxor (rotr x 17) (rotr x 19)) (Z.shiftr x 10).

(** The constants of the algorithm are not written out here but
    computed from their definition: the table [_K] holds the first 32
    bits of the fractional parts of the cube roots of the first 64
    primes, the initial chaining words those of the square roots of the
    first 8. *)
Definition isPrime (n : Z) : bool :=
  forallb (fun d => negb (n mod Z.of_nat d =? 0)) (seq 2 (Z.to_nat n - 2)).

Definition primes : list Z :=
  List.filter isPrime (map Z.of_nat (seq 2 310)).

(** The integer cube root of [n], one bit after the other from bit
    [bits - 1] down. *)
Fixpoint iroot3 (bits : nat) (n x : Z) : Z :=
  match bits with
  | O => x
  | S k =>
      let y := x + 2 ^ Z.of_nat k in
      iroot3 k n (if y * y * y <=? n then y else x)
  end.

Definition _K : list Z :=
  Eval vm_compute in
    map (fun p => u32 (iroot3 35 (p * 2 ^ 96) 0)) primes.

Definition initWords : list Z :=
  Eval vm_compute in
    map (fun p => u32 (Z.sqrt (p * 2 ^ 64))) (firstn 8 primes).

(** The eight chaining words [h[0..7]]. *)
Record digest : Type := Digest
  { h0 : Z; h1 : Z; h2 : Z; h3 : Z; h4 : Z; h5 : Z; h6 : Z; h7 : Z }.

Definition init : digest :=
  Digest (nth 0 initWords 0) (nth 1 initWords 0) (nth 2 initWords 0)
         (nth 3 initWords 0) (nth 4 initWords 0) (nth 5 initWords 0)
         (nth 6 initWords 0) (nth 7 initWords 0).

(** Big-endian words of a block. *)
Fixpoint words (p : list Z) : list Z :=
  match p with
  | b0 :: b1 :: b2 :: b3 :: rest =>
      Z.lor (Z.lor (Z.shiftl b0 24) (Z.shiftl b1 16))
            (Z.lor (Z.shiftl b2 8) b3) :: words rest
  | _ => []
  end.

(** The message schedule, most recent word first: [w[i]] is computed
    from [w[i-2]], [w[i-7]], [w[i-15]] and [w[i-16]]. *)
Fixpoint extend (n : nat) (rw : list Z) : list Z :=
  match n with
  | O => rw
  | S k =>
      let v1 := nth 1 rw 0 in
      let v2 := nth 14 rw 0 in
      let wi := add32 (add32 (add32 (smallSigma1 v1) (nth 6 rw 0))
                             (smallSigma0 v2)) (nth 15 rw 0) in
      extend k (wi :: rw)
  end.

Definition schedule (p : list Z) : list Z :=
  rev (extend 48 (rev (words p))).

Definition round (d : digest) (kw : Z * Z) : digest :=
  let '(Digest a b c d0 e f g h) := d in
  let t1 := add32 (add32 (add32 (add32 h (bigSigma1 e)) (Ch e f g))
                         (fst kw)) (snd kw) in
  let t2 := add32 (bigSigma0 a) (Maj a b c) in
  Digest (add32 t1 t2) a b c (add32 d0 t1) e f g.

(** One 64-byte block. *)
Definition block (d : digest) (p : list Z) : digest :=
  let r := fold_left round (combine _K (schedule p)) d in
  Digest (add32 (h0 d) (h0 r)) (add32 (h1 d) (h1 r))
         (add32 (h2 d) (h2 r)) (add32 (h3 d) (h3 r))
         (add32 (h4 d) (h4 r)) (add32 (h5 d) (h5 r))
         (add32 (h6 d) (h6 r)) (add32 (h7 d) (h7 r)).

Fixpoint blocks (fuel : nat) (d : digest) (p : list Z) : digest :=
  match fuel, p with
  | S k, _ :: _ => blocks k (block d (firstn 64 p)) (skipn 64 p)
  | _, _ => d
  end.

Definition be32 (w : Z) : list byte :=
  [ byte_of_Z (Z.shiftr w 24); byte_of_Z (Z.shiftr w 16);
    byte_of_Z (Z.shiftr w 8); byte_of_Z w ].

Definition be64 (n : Z) : list Z :=
  map (fun k => Z.land (Z.shiftr n (8 * k)) 255) [7; 6; 5; 4; 3; 2; 1; 0].

(** Padding: a 0x80 byte, zeros up to 56 modulo 64, the bit length on
    eight bytes. *)
Definition padding (len : Z) : list Z :=
  let r := len mod 64 in
  let zeros := if r <? 56 then 55 - r else 119 - r in
  0x80 :: repeat 0 (Z.to_nat zeros) ++ be64 (8 * len).

Definition checkSum (d : digest) : list byte :=
  be32 (h0 d) ++ be32 (h1 d) ++ be32 (h2 d) ++ be32 (h3 d) ++
  be32 (h4 d) ++ be32 (h5 d) ++ be32 (h6 d) ++ be32 (h7 d).

(** [sha256.Sum256(data)] *)
Definition Sum256 (data : list byte) : list byte :=
  let p := map Z_of_byte data in
  let padded := p ++ padding (Z.of_nat (length p)) in
  checkSum (blocks (length padded) init padded).

End sha256.

(** ** package crypto/hmac *)
Module hmac.

Definition xorPad (pad : Z) (key : list byte) : list byte :=
  map (fun b => byte_of_Z (Z.lxor (Z_of_byte b) pad)) key.

(** [hmac.New(sha256.New, key)]: a key longer than the block size is
    hashed first; the key is then filled with zeros to the block size. *)
Definition blockKey (key : list byte) : list byte :=
  let k := if (sha256.BlockSize <? length key)%nat
           then sha256.Sum256 key else key in
  k ++ repeat x00 (sha256.BlockSize - length k).

(** [mac := hmac.New(sha256.New, key); mac.Write(msg); mac.Sum(nil)] *)
Definition Sum (key msg : list byte) : list byte :=
  let k := blockKey key in
  sha256.Sum256 (xorPad 0x5c k ++ sha256.Sum256 (xorPad 0x36 k ++ msg)).

End hmac.

(** ** package strconv *)
Module strconv.

Inductive NumError : Type := ErrSyntax | ErrRange.

Definition maxInt : Z := 2 ^ 63 - 1.
Definition minInt : Z := - 2 ^ 63.

(** The digit loop: [n = n*10 + int(ch - '0')], a syntax error at the
    first byte that is not a digit. *)
Fixpoint digits (s : string) (n : Z) : option Z :=
  match s with
  | EmptyString => Some n
  | String ch t =>
      let d := Z_of_ascii ch - 48 in
      if (0 <=? d) && (d <=? 9) then digits t (n * 10 + d) else None
  end.

(** [strconv.Atoi(s)]: an optional sign, then one or more decimal
    digits; a value outside [int] is a range error and the value
    returned with it is the nearest bound. *)
Definition Atoi (s : string) : Z * option NumError :=
  match s with
  | EmptyString => (0, Some ErrSyntax)
  | String c t =>
      let neg := Ascii.eqb c "-" in
      let rest := if neg || Ascii.eqb c "+" then t else s in
      match rest with
      | EmptyString => (0, Some ErrSyntax)
      | _ =>
          match digits rest 0 with
          | None => (0, Some ErrSyntax)
          | Some n =>
              let v := if neg then - n else n in
              if v <? minInt then (minInt, Some ErrRange)
              else if maxInt <? v then (maxInt, Some ErrRange)
              else (v, None)
          end
      end
  end.

End strconv.

(** ** package os *)
Module os.

(** The environment of the process. *)
Definition Environ : Type := gmap string string.

(** [os.Getenv(key)]: the value, empty when the variable is not set *)
Definition Getenv (env : Environ) (key : string) : string :=
  default EmptyString (env !! key).

End os.

(** ** package net/textproto *)
Module textproto.

Definition isLower (c : ascii) : bool :=
  (97 <=? Z_of_ascii c) && (Z_of_ascii c <=? 122).
Definition isUpper (c : ascii) : bool :=
  (65 <=? Z_of_ascii c) && (Z_of_ascii c <=? 90).
Definition isDigit (c : ascii) : bool :=
  (48 <=? Z_of_ascii c) && (Z_of_ascii c <=? 57).

(** The bytes of an HTTP token. *)
Definition validHeaderFieldByte (c : ascii) : bool :=
  isLower c || isUpper c || isDigit c
  || existsb (Ascii.eqb c) (list_ascii_of_string "!#$%&'*+-.^_`|~").

Definition toLower : Z := 32.

Fixpoint canon (upper : bool) (a : string) : string :=
  match a with
  | EmptyString => EmptyString
  | String c t =>
      let c' :=
        if upper && isLower c then ascii_of_N (Z.to_N (Z_of_ascii c - toLower))
        else if negb upper && isUpper c
             then ascii_of_N (Z.to_N (Z_of_ascii c + toLower))
             else c in
      String c' (canon (Ascii.eqb c' "-") t)
  end.

(** [textproto.CanonicalMIMEHeaderKey(s)]: the first letter and every
    letter after a hyphen in upper case, the others in lower case; a
    key with a byte that is not a token byte is returned unchanged. *)
Definition CanonicalMIMEHeaderKey (s : string) : string :=
  if forallb validHeaderFieldByte (list_ascii_of_string s)
  then canon true s else s.

End textproto.

(** Go's [error] values, by their message. *)
Definition error : Type := string.

(** ** package net/url and net/http *)
Module http.

Definition StatusOK : Z := 200.
Definition StatusIMUsed : Z := 226.

(** [http.Header]: canonical key to values *)
Abbreviation Header := (gmap string (list string)).

Definition Header_Set (h : Header) (key value : string) : Header :=
  <[textproto.CanonicalMIMEHeaderKey key := [value]]> h.

Definition Header_Get (h : Header) (key : string) : string :=
  match h !! textproto.CanonicalMIMEHeaderKey key with
  | Some (v :: _) => v
  | _ => EmptyString
  end.

(** [http.Request], with the fields the program sets or the client
    reads.  [URL] is the string that was given to [http.NewRequest]: the
    request of the code holds what [url.Parse] made of it, which is sent
    in a normal form (the scheme in lower case, an empty port dropped)
    that is not modelled.  The field names the target a request was
    built for, not the text of the URL that goes out. *)
Record Request : Type := mkRequest
  { Method : string; URL : string; Body : string; Hdr : Header }.

Record Response : Type := mkResponse { StatusCode : Z }.

Definition stringContainsCTLByte (s : string) : bool :=
  existsb (fun c => (Z_of_ascii c <? 32) || (Z_of_ascii c =? 127))
          (list_ascii_of_string s).

(** The URL without its fragment: what comes before the first '#'. *)
Fixpoint cutFragment (s : string) : string :=
  match s with
  | EmptyString => EmptyString
  | String c t =>
      if Ascii.eqb c "#" then EmptyString else String c (cutFragment t)
  end.

Section NewRequest.
(** What else [url.Parse] checks (scheme, host, port and escape
    syntax) is left open. *)
Variable urlSyntax : string -> bool.

(** [http.NewRequest(method, url, body)] for one of the standard
    methods: it fails when the URL does not parse, which is the case
    of a URL with an ASCII control byte before its fragment, and
    otherwise gives a request with an empty header, for the URL it was
    given (see [Request]).  Of the error only the cause is kept: the
    message of the code has [parse "<url>": ] in front of it. *)
Definition NewRequest (method url : string) (body : string)
  : Request + error :=
  if stringContainsCTLByte (cutFragment url) then
    inr "net/url: invalid control character in URL"%string
  else if urlSyntax url then inl (mkRequest method url body ∅)
  else inr "parse error"%string.
End NewRequest.

End http.

(** ** package github.com/aws/aws-sdk-go/service/sqs

    The SDK hands the fields of a message out as pointers to strings.
    The queue service sets all three on every message it returns, and
    the model takes the strings themselves; in the same way the output
    of a receive call that returned no error is taken to be there. *)
Module sqs.

Record Message : Type := mkMessage
  { Body : string; MessageId : string; ReceiptHandle : string }.

Record DeleteMessageBatchRequestEntry : Type := mkEntry
  { Id : string; EntryReceiptHandle : string }.

Record ReceiveMessageInput : Type := mkReceiveInput
  { MaxNumberOfMessages : Z; QueueUrl : string; WaitTimeSeconds : Z }.

Record ReceiveMessageOutput : Type := mkReceiveOutput
  { Messages : list Message }.

Record DeleteMessageBatchInput : Type := mkDeleteInput
  { Entries : list DeleteMessageBatchRequestEntry;
    DeleteQueueUrl : string }.

End sqs.

(** ** package supervisor *)
Module supervisor.

Record WorkerConfig : Type := mkWorkerConfig
  { QueueURL : string;
    QueueMaxMessages : Z;
    QueueWaitTime : Z;
    SecretKey : list byte;
    HTTPURL : string;
    HTTPContentType : string }.

(** The mutable part of a [Supervisor] next to its configuration:
    [startOnce] holds whether the [sync.Once] has fired, [wg] the
    counter of the [sync.WaitGroup]. *)
Record Supervisor : Type := mkSupervisor
  { workerConfig : WorkerConfig;
    startOnce : bool;
    wg : Z;
    shutdown : bool }.

Definition NewSupervisor (config : WorkerConfig) : Supervisor :=
  {| workerConfig := config; startOnce := false; wg := 0;
     shutdown := false |}.

(** [getMac(signature, secretKey)] *)
Definition getMac (signature : string) (secretKey : list byte) : string :=
  hex.EncodeToString (hmac.Sum secretKey (bytes_of_string signature)).

Arguments getMac : simpl never.

(** The value [Start] stores in the package variable [signature]. *)
Definition signatureOf (config : WorkerConfig) : string :=
  "POST " +:+ gostrings.TrimRight (HTTPURL config) "/" +:+ newline.

(** What a goroutine of the package does to the outside, in order. *)
Inductive Level : Type := InfoLevel | ErrorLevel.

Inductive Event : Type :=
| EvLog (lvl : Level) (msg : string)
| EvReceive (input : sqs.ReceiveMessageInput)
            (result : sqs.ReceiveMessageOutput + error)
| EvDo (req : http.Request) (result : http.Response + error)
| EvBodyClose
| EvDelete (input : sqs.DeleteMessageBatchInput) (result : option error)
| EvPanic (msg : string).

Definition isQueueOrHTTPCall (e : Event) : bool :=
  match e with
  | EvReceive _ _ | EvDo _ _ | EvDelete _ _ => true
  | _ => false
  end.

Definition isDo (e : Event) : bool :=
  match e with EvDo _ _ => true | _ => false end.

Definition isDelete (e : Event) : bool :=
  match e with EvDelete _ _ => true | _ => false end.

(** The two interfaces a [Supervisor] is built on.  [W] is the state
    of whatever is behind them (the queue service, the HTTP endpoint,
    the other clients of both): a call reads it and may change it. *)
Class SQSAPI (W : Type) : Type :=
  { ReceiveMessage :
      sqs.ReceiveMessageInput -> W ->
      (sqs.ReceiveMessageOutput + error) * W;
    DeleteMessageBatch :
      sqs.DeleteMessageBatchInput -> W -> option error * W }.

Class httpClient (W : Type) : Type :=
  { Do : http.Request -> W -> (http.Response + error) * W }.

(** Control after one pass through the body of [for { ... }]. *)
Inductive Ctl : Type := Return | Continue.

(** Where a worker goroutine stands. *)
Inductive PC : Type :=
| pcEntry
| pcLoop
| pcReceive
| pcDispatch (msgs : list sqs.Message)
             (deleteEntries : list sqs.DeleteMessageBatchRequestEntry)
| pcReturned.

Section Core.
Context {W : Type} `{!SQSAPI W} `{!httpClient W}.
Variable urlSyntax : string -> bool.

(** A computation over the outside world that records its events. *)
Definition M (A : Type) : Type := W -> A * W * list Event.

#[export] Instance M_ret : MRet M := fun _ a w => (a, w, []).
#[export] Instance M_bind : MBind M := fun _ _ f m w =>
  let '(a, w1, t1) := m w in
  let '(b, w2, t2) := f a w1 in
  (b, w2, t1 ++ t2).

Definition emit (e : Event) : M unit := fun w => (tt, w, [e]).

Definition Errorf (msg : string) : M unit := emit (EvLog ErrorLevel msg).
Definition Info (msg : string) : M unit := emit (EvLog InfoLevel msg).

Definition sqsReceiveMessage (input : sqs.ReceiveMessageInput)
  : M (sqs.ReceiveMessageOutput + error) := fun w =>
  let '(r, w') := ReceiveMessage input w in (r, w', [EvReceive input r]).

Definition sqsDeleteMessageBatch (input : sqs.DeleteMessageBatchInput)
  : M (option error) := fun w =>
  let '(r, w') := DeleteMessageBatch input w in (r, w', [EvDelete input r]).

Definition httpClientDo (req : http.Request)
  : M (http.Response + error) := fun w =>
  let '(r, w') := Do req w in (r, w', [EvDo req r]).

Definition setHeader (req : http.Request) (key value : string)
  : http.Request :=
  http.mkRequest (http.Method req) (http.URL req) (http.Body req)
                 (http.Header_Set (http.Hdr req) key value).

(** [func (s *Supervisor) httpRequest(body string) error]; the
    package variable [signature] it reads is the argument of that
    name. *)
Definition httpRequest (s : Supervisor) (signature : string)
           (body : string) : M (option error) :=
  match http.NewRequest urlSyntax "POST" (HTTPURL (workerConfig s)) body with
  | inr err =>
      mret (Some ("Error while creating HTTP request: " +:+ err))
  | inl req =>
      let req :=
        if (0 <? length (SecretKey (workerConfig s)))%nat then
          let mac := getMac (signature +:+ body) (SecretKey (workerConfig s)) in
          setHeader req "MAC" mac
        else req in
      let req :=
        if (0 <? String.length (HTTPContentType (workerConfig s)))%nat then
          setHeader req "Content-Type" (HTTPContentType (workerConfig s))
        else req in
      res ← httpClientDo req;
      match res with
      | inr err =>
          mret (Some ("Error while making HTTP request: " +:+ err))
      | inl res =>
          _ ← emit EvBodyClose;
          if (http.StatusCode res <? http.StatusOK)
             || (http.StatusIMUsed <? http.StatusCode res)
          then mret (Some "Non-Success status code received"%string)
          else mret None
      end
  end.

Definition deleteEntry (msg : sqs.Message)
  : sqs.DeleteMessageBatchRequestEntry :=
  sqs.mkEntry (sqs.MessageId msg) (sqs.ReceiptHandle msg).

(** [for _, msg := range output.Messages { ... }] *)
Fixpoint dispatch (s : Supervisor) (signature : string)
         (msgs : list sqs.Message)
         (deleteEntries : list sqs.DeleteMessageBatchRequestEntry)
  : M (list sqs.DeleteMessageBatchRequestEntry) :=
  match msgs with
  | [] => mret deleteEntries
  | msg :: rest =>
      err ← httpRequest s signature (sqs.Body msg);
      match err with
      | Some e =>
          _ ← Errorf ("Error while making HTTP request: " +:+ e);
          dispatch s signature rest deleteEntries
      | None =>
          dispatch s signature rest (deleteEntries ++ [deleteEntry msg])
      end
  end.

Definition recInput (s : Supervisor) : sqs.ReceiveMessageInput :=
  sqs.mkReceiveInput (QueueMaxMessages (workerConfig s))
                     (QueueURL (workerConfig s))
                     (QueueWaitTime (workerConfig s)).

Definition delInput (s : Supervisor)
           (deleteEntries : list sqs.DeleteMessageBatchRequestEntry)
  : sqs.DeleteMessageBatchInput :=
  sqs.mkDeleteInput deleteEntries (QueueURL (workerConfig s)).

(** The end of the loop body, from [if len(deleteEntries) == 0]. *)
Definition acknowledge (s : Supervisor)
           (deleteEntries : list sqs.DeleteMessageBatchRequestEntry)
  : M Ctl :=
  if (length deleteEntries =? 0)%nat then mret Continue
  else
    err ← sqsDeleteMessageBatch (delInput s deleteEntries);
    match err with
    | Some e =>
        _ ← Errorf ("Error while deleting messages from SQS: " +:+ e);
        mret Continue
    | None => mret Continue
    end.

(** The loop body from the receive call on. *)
Definition cycle (s : Supervisor) (signature : string) : M Ctl :=
  output ← sqsReceiveMessage (recInput s);
  match output with
  | inr err =>
      _ ← Errorf ("Error while receiving messages from the queue: " +:+ err);
      mret Continue
  | inl output =>
      if (length (sqs.Messages output) =? 0)%nat then mret Continue
      else
        deleteEntries ← dispatch s signature (sqs.Messages output) [];
        acknowledge s deleteEntries
  end.

(** One pass through the body of the [for] loop of [worker]. *)
Definition iteration (s : Supervisor) (signature : string) : M Ctl :=
  if shutdown s then mret Return else cycle s signature.

(** *** The worker goroutine, one call to the outside at a time

    [workerStep] runs the worker from one point of [PC] to the next.
    The flag [s.shutdown] is read at [pcLoop] and nowhere else. *)
Definition workerStep (s : Supervisor) (signature : string) (pc : PC)
  : M PC :=
  match pc with
  | pcEntry => _ ← Info "Starting worker"; mret pcLoop
  | pcLoop => if shutdown s then mret pcReturned else mret pcReceive
  | pcReceive =>
      output ← sqsReceiveMessage (recInput s);
      match output with
      | inr err =>
          _ ← Errorf ("Error while receiving messages from the queue: "
                      +:+ err);
          mret pcLoop
      | inl output =>
          if (length (sqs.Messages output) =? 0)%nat then mret pcLoop
          else mret (pcDispatch (sqs.Messages output) [])
      end
  | pcDispatch (msg :: rest) deleteEntries =>
      err ← httpRequest s signature (sqs.Body msg);
      match err with
      | Some e =>
          _ ← Errorf ("Error while making HTTP request: " +:+ e);
          mret (pcDispatch rest deleteEntries)
      | None =>
          mret (pcDispatch rest (deleteEntries ++ [deleteEntry msg]))
      end
  | pcDispatch [] deleteEntries =>
      _ ← acknowledge s deleteEntries; mret pcLoop
  | pcReturned => mret pcReturned
  end.

(** The worker run alone for [n] steps. *)
Fixpoint workerSteps (n : nat) (s : Supervisor) (signature : string)
         (pc : PC) : M PC :=
  match n with
  | O => mret pc
  | S k => pc' ← workerStep s signature pc; workerSteps k s signature pc'
  end.

(** *** The process: one Supervisor, its goroutines, the outside *)
Record Process : Type := mkProcess
  { signature : string;      (* var signature string *)
    sup : Supervisor;
    workers : list PC;       (* the goroutines of [go s.worker()] *)
    world : W;
    trace : list Event }.

Definition initial (config : WorkerConfig) (w : W) : Process :=
  {| signature := EmptyString; sup := NewSupervisor config;
     workers := []; world := w; trace := [] |}.

(** [wg.Add(delta)]: the new counter, and whether the call panics.
    Go keeps the counter of a [sync.WaitGroup] in 32 bits and [Add]
    truncates its argument to them; the counter is kept here as an
    unbounded integer.  This is the counter of the code for the counts
    of an [int32]: for [0 <= n < 2^31] the counter is [n], and for
    [- 2^31 <= n < 0] the call panics.  A pool of 2^31 workers or more
    is outside the model: there the code panics, or counts modulo
    2^32. *)
Definition wgAdd (delta counter : Z) : Z * bool :=
  (counter + delta, counter + delta <? 0).

(** [func (s *Supervisor) Start(numWorkers int)].  [sync.Once] counts
    a call whose function panicked as done. *)
Definition Start (numWorkers : Z) (p : Process) : Process :=
  let s := sup p in
  let sig := signatureOf (workerConfig s) in
  if startOnce s then
    mkProcess sig s (workers p) (world p) (trace p)
  else
    let '(c, panics) := wgAdd numWorkers (wg s) in
    let s' := mkSupervisor (workerConfig s) true c (shutdown s) in
    if panics then
      mkProcess sig s' (workers p) (world p)
        (trace p ++ [EvPanic "sync: negative WaitGroup counter"])
    else
      mkProcess sig s'
        (workers p ++ repeat pcEntry (Z.to_nat numWorkers))
        (world p) (trace p).

(** [func (s *Supervisor) Shutdown()] *)
Definition Shutdown (p : Process) : Process :=
  let s := sup p in
  mkProcess (signature p)
    (mkSupervisor (workerConfig s) (startOnce s) (wg s) true)
    (workers p) (world p) (trace p).

(** [func (s *Supervisor) Wait()] returns once the counter is zero. *)
Definition WaitReturns (p : Process) : bool := wg (sup p) =? 0.

(** A step of goroutine [i]; the deferred [s.wg.Done()] runs with
    the step that returns from [worker]. *)
Definition goroutineStep (i : nat) (p : Process) : option Process :=
  match workers p !! i with
  | None | Some pcReturned => None
  | Some pc =>
      let '(pc', w', tr) := workerStep (sup p) (signature p) pc (world p) in
      let s := sup p in
      match pc' with
      | pcReturned =>
          let '(c, panics) := wgAdd (-1) (wg s) in
          Some (mkProcess (signature p)
                  (mkSupervisor (workerConfig s) (startOnce s) c (shutdown s))
                  (<[i := pc']> (workers p)) w'
                  (trace p ++ tr ++
                   (if panics
                    then [EvPanic "sync: negative WaitGroup counter"]
                    else [])))
      | _ =>
          Some (mkProcess (signature p) s (<[i := pc']> (workers p)) w'
                  (trace p ++ tr))
      end
  end.

(** What can happen next: a call of a method of the Supervisor by
    its owner, the return of a pending [Wait], a step of a worker. *)
Inductive Label : Type :=
| CallStart (numWorkers : Z)
| CallShutdown
| WaitReturn
| Step (i : nat).

Definition step (l : Label) (p : Process) : option Process :=
  match l with
  | CallStart n => Some (Start n p)
  | CallShutdown => Some (Shutdown p)
  | WaitReturn => if WaitReturns p then Some p else None
  | Step i => goroutineStep i p
  end.

Fixpoint exec (ls : list Label) (p : Process) : option Process :=
  match ls with
  | [] => Some p
  | l :: rest =>
      match step l p with
      | Some p' => exec rest p'
      | None => None
      end
  end.

Definition isReturned (pc : PC) : bool :=
  match pc with pcReturned => true | _ => false end.

(** The workers that have not returned. *)
Fixpoint live (ws : list PC) : nat :=
  match ws with
  | [] => O
  | pc :: rest => if isReturned pc then live rest else S (live rest)
  end.

Definition calls (tr : list Event) : list Event :=
  List.filter isQueueOrHTTPCall tr.

End Core.

End supervisor.

(** ** package main (cmd/simplesqsd) *)
Module simplesqsd.

Record config : Type := mkConfig
  { AWSEndpoint : string;
    AppApiSecretKey : list byte;
    QueueRegion : string;
    QueueURL : string;
    QueueMaxMessages : Z;
    QueueWaitTime : Z;
    HTTPMaxConns : Z;
    HTTPURL : string;
    HTTPContentType : string }.

(** [func getEnvInt(key string, def int) int] *)
Definition getEnvInt (env : os.Environ) (key : string) (def : Z) : Z :=
  let '(val, err) := strconv.Atoi (os.Getenv env key) in
  match err with
  | Some _ => def
  | None => val
  end.

(** The first lines of [main]: the configuration read from the
    environment. *)
Definition readConfig (env : os.Environ) : config :=
  {| AWSEndpoint := os.Getenv env "AWS_ENDPOINT";
     AppApiSecretKey := bytes_of_string (os.Getenv env "APP_API_SECRET_KEY");
     QueueRegion := os.Getenv env "SQSD_QUEUE_REGION";
     QueueURL := os.Getenv env "SQSD_QUEUE_URL";
     QueueMaxMessages := getEnvInt env "SQSD_QUEUE_MAX_MSGS" 10;
     QueueWaitTime := getEnvInt env "SQSD_QUEUE_WAIT_TIME" 10;
     HTTPMaxConns := getEnvInt env "SQSD_HTTP_MAX_CONNS" 50;
     HTTPURL := os.Getenv env "SQSD_HTTP_URL";
     HTTPContentType := os.Getenv env "SQSD_HTTP_CONTENT_TYPE" |}.

(** How [main] goes on: it stops in [log.Fatal], it panics in
    [session.Must], or it builds a Supervisor from [wConf] and calls
    [Start] on it with [numWorkers]. *)
Inductive Outcome : Type :=
| Fatal (msg : string)
| SessionPanic (err : error)
| StartSupervisor (wConf : supervisor.WorkerConfig) (numWorkers : Z).

(** [func main()] up to [s.Start(c.HTTPMaxConns)]; [sessionErr] is the
    error of [session.NewSessionWithOptions], if any. *)
Definition main (env : os.Environ) (sessionErr : option error) : Outcome :=
  let c := readConfig env in
  if (String.length (QueueRegion c) =? 0)%nat then
    Fatal "SQSD_QUEUE_REGION cannot be empty"
  else if (String.length (QueueURL c) =? 0)%nat then
    Fatal "SQSD_QUEUE_URL cannot be empty"
  else if (String.length (HTTPURL c) =? 0)%nat then
    Fatal "SQSD_HTTP_URL cannot be empty"
  else
    match sessionErr with
    | Some e => SessionPanic e
    | None =>
        let wConf :=
          {| supervisor.QueueURL := QueueURL c;
             supervisor.QueueMaxMessages := QueueMaxMessages c;
             supervisor.QueueWaitTime := QueueWaitTime c;
             supervisor.SecretKey := AppApiSecretKey c;
             supervisor.HTTPURL := HTTPURL c;
             supervisor.HTTPContentType := HTTPContentType c |} in
        StartSupervisor wConf (HTTPMaxConns c)
    end.

End simplesqsd.

(** ** A queue and an endpoint to run the code against

    The queue hands out the batches of [pending] one receive call after
    the other and answers the delete calls with [deleteResults]; the
    endpoint answers a request with the status code written in its body,
    and with a transport error when the body is not a number. *)
Module scenario.

Record World : Type := mkWorld
  { pending : list (sqs.ReceiveMessageOutput + error);
    deleteResults : list (option error) }.

#[global] Instance queue : supervisor.SQSAPI World :=
  {| supervisor.ReceiveMessage := fun _ w =>
       match pending w with
       | [] => (inl (sqs.mkReceiveOutput []), w)
       | r :: rest => (r, mkWorld rest (deleteResults w))
       end;
     supervisor.DeleteMessageBatch := fun _ w =>
       match deleteResults w with
       | [] => (None, w)
       | r :: rest => (r, mkWorld (pending w) rest)
       end |}.

#[global] Instance endpoint : supervisor.httpClient World :=
  {| supervisor.Do := fun req w =>
       match strconv.Atoi (http.Body req) with
       | (code, None) => (inl (http.mkResponse code), w)
       | (_, Some _) => (inr "connection refused"%string, w)
       end |}.

Definition anyURL (url : string) : bool := true.

Definition conf (url : string) (key : string) : supervisor.WorkerConfig :=
  {| supervisor.QueueURL := "https://sqs.example/q";
     supervisor.QueueMaxMessages := 10;
     supervisor.QueueWaitTime := 10;
     supervisor.SecretKey := bytes_of_string key;
     supervisor.HTTPURL := url;
     supervisor.HTTPContentType := "application/json" |}.

Definition msg (body id : string) : sqs.Message :=
  sqs.mkMessage body id ("rh-" +:+ id).

Definition idle : World := mkWorld [] [].

(** An environment with a zero and two negative numbers. *)
Definition oddEnv : os.Environ :=
  list_to_map
    [("SQSD_QUEUE_REGION", "eu-west-1"); ("SQSD_QUEUE_URL", "https://sqs.example/q");
     ("SQSD_HTTP_URL", "https://example.com/hook/");
     ("SQSD_QUEUE_MAX_MSGS", "0"); ("SQSD_QUEUE_WAIT_TIME", "-5");
     ("SQSD_HTTP_MAX_CONNS", "-1")]%string.

(** The scenario of the specification: key "s3cr3t", target
    "https://example.com/hook/", one message of body "payload". *)
Definition signedConf : supervisor.WorkerConfig :=
  conf "https://example.com/hook/" "s3cr3t".

Definition signedWorld : World :=
  mkWorld [inl (sqs.mkReceiveOutput [msg "payload" "m1"])] [].

(** One worker started and run up to its first delivery. *)
Definition firstDelivery : list supervisor.Label :=
  [supervisor.CallStart 1; supervisor.Step 0; supervisor.Step 0;
   supervisor.Step 0; supervisor.Step 0].

(** The request of that delivery. *)
Definition signedRequest : http.Request :=
  http.mkRequest "POST" "https://example.com/hook/" "payload"
    (<["Content-Type"%string := ["application/json"%string]]>
       (<["Mac"%string :=
            ["3a594549a081bc73160201683d8a596b28a0f96d9485071a13af6a01f1164fc7"%string]]>
          ∅)).

(** The same without a key. *)
Definition unsignedConf : supervisor.WorkerConfig :=
  conf "https://example.com/hook/" "".

Definition unsignedRequest : http.Request :=
  http.mkRequest "POST" "https://example.com/hook/" "payload"
    (<["Content-Type"%string := ["application/json"%string]]> ∅).

(** A run with two calls of [Start], steps of the two workers between
    them, and a [Shutdown]. *)
Definition twoStarts : list supervisor.Label :=
  [supervisor.CallStart 2; supervisor.Step 0; supervisor.CallStart 7;
   supervisor.Step 1; supervisor.CallShutdown].

(** One worker in its poll cycle when [Shutdown] is called: it ends the
    cycle, returns at the flag check, and [Wait] returns. *)
Definition gracefulStop : list supervisor.Label :=
  [supervisor.CallStart 1; supervisor.Step 0; supervisor.Step 0]
  ++ supervisor.CallShutdown
     :: [supervisor.Step 0; supervisor.Step 0] ++ [supervisor.WaitReturn].

(** A target URL with a DEL byte in its path. *)
Definition urlWithDEL : string :=
  "http://localhost/hook" +:+ String "127"%char EmptyString.

End scenario.

(** ** Notions the properties are stated with *)
Module notions.
Import supervisor.

(** The signer as the specification words it: the lower-case hex form
    of HMAC-SHA256 under [secretKey] of the canonical string
    ["POST " + rightTrim(url, "/") + "\n" + body]. *)
Definition canonicalString (url body : string) : string :=
  "POST " +:+ gostrings.TrimRight url "/" +:+ newline +:+ body.

Definition sign (url body : string) (secretKey : list byte) : string :=
  hex.EncodeToString
    (hmac.Sum secretKey (bytes_of_string (canonicalString url body))).

(** The header fields [httpRequest] sets on a fresh request. *)
Definition decorate (c : WorkerConfig) (signature body : string)
           (req : http.Request) : http.Request :=
  let req :=
    if (0 <? length (SecretKey c))%nat
    then setHeader req "MAC" (getMac (signature +:+ body) (SecretKey c))
    else req in
  if (0 <? String.length (HTTPContentType c))%nat
  then setHeader req "Content-Type" (HTTPContentType c)
  else req.

(** What [httpRequest] makes of the answer of the client. *)
Definition verdict (res : http.Response + error) : option error :=
  match res with
  | inr err => Some ("Error while making HTTP request: " +:+ err)
  | inl res =>
      if (http.StatusCode res <? http.StatusOK)
         || (http.StatusIMUsed <? http.StatusCode res)
      then Some "Non-Success status code received"%string
      else None
  end.

Definition closing (res : http.Response + error) : list Event :=
  match res with inl _ => [EvBodyClose] | inr _ => [] end.

(** The values of the MAC header of the requests of a trace. *)
Definition macHeader (req : http.Request) : option (list string) :=
  http.Hdr req !! textproto.CanonicalMIMEHeaderKey "MAC".

(** A configuration with another target URL. *)
Definition withURL (c : WorkerConfig) (url : string) : WorkerConfig :=
  {| QueueURL := QueueURL c; QueueMaxMessages := QueueMaxMessages c;
     QueueWaitTime := QueueWaitTime c; SecretKey := SecretKey c;
     HTTPURL := url; HTTPContentType := HTTPContentType c |}.

(** A Supervisor with another value of the shutdown flag. *)
Definition withShutdown (s : Supervisor) (b : bool) : Supervisor :=
  mkSupervisor (workerConfig s) (startOnce s) (wg s) b.

(** The first [Start] of a run. *)
Fixpoint firstStart (ls : list Label) : option Z :=
  match ls with
  | [] => None
  | CallStart n :: _ => Some n
  | _ :: rest => firstStart rest
  end.

(** The line the worker logs after an attempt, if it failed. *)
Definition failureLog (err : option error) : list Event :=
  match err with
  | Some e => [EvLog ErrorLevel ("Error while making HTTP request: " +:+ e)]
  | None => []
  end.

Section Deliveries.
Context {W : Type} `{!SQSAPI W} `{!httpClient W}.
Variable urlSyntax : string -> bool.

(** The delivery attempts of a batch, in receipt order, each message
    with the result of its [httpRequest]. *)
Fixpoint deliveries (s : Supervisor) (signature : string)
         (msgs : list sqs.Message)
  : M (W := W) (list (sqs.Message * option error)) :=
  match msgs with
  | [] => mret []
  | msg :: rest =>
      err ← httpRequest urlSyntax s signature (sqs.Body msg);
      _ ← match err with
          | Some e => Errorf ("Error while making HTTP request: " +:+ e)
          | None => mret tt
          end;
      outs ← deliveries s signature rest;
      mret ((msg, err) :: outs)
  end.

(** The entries of the messages whose attempt succeeded. *)
Fixpoint delivered (outs : list (sqs.Message * option error))
  : list sqs.DeleteMessageBatchRequestEntry :=
  match outs with
  | [] => []
  | (msg, None) :: rest => deleteEntry msg :: delivered rest
  | (_, Some _) :: rest => delivered rest
  end.
End Deliveries.

(** Decimal numerals as the specification means them: one or more
    digits, read in base ten, with an optional sign in front. *)
Definition digitChar (d : Z) : ascii := ascii_of_N (Z.to_N (48 + d)).

Inductive Decimal : string -> Z -> Prop :=
| Decimal_digit (d : Z) :
    0 <= d <= 9 -> Decimal (String (digitChar d) EmptyString) d
| Decimal_more (s : string) (v d : Z) :
    Decimal s v -> 0 <= d <= 9 ->
    Decimal (s +:+ String (digitChar d) EmptyString) (10 * v + d).

Inductive DecimalInt : string -> Z -> Prop :=
| DecimalInt_plain (s : string) (v : Z) : Decimal s v -> DecimalInt s v
| DecimalInt_plus (s : string) (v : Z) :
    Decimal s v -> DecimalInt (String "+" s) v
| DecimalInt_minus (s : string) (v : Z) :
    Decimal s v -> DecimalInt (String "-" s) (- v).

(** Readings of a trace of [httpRequest]. *)
Definition sendFailed (tr : list Event) : Prop :=
  exists req err, In (EvDo req (inr err)) tr.

Definition statusOutside (tr : list Event) : Prop :=
  exists req res,
    In (EvDo req (inl res)) tr
    /\ ~ (200 <= http.StatusCode res <= 226).

Definition requestNotBuilt (urlSyntax : string -> bool) (s : Supervisor)
           (body : string) : Prop :=
  exists err,
    http.NewRequest urlSyntax "POST" (HTTPURL (workerConfig s)) body = inr err.

(** "[httpRequest] returns an error if and only if the send fails at
    the transport level or the status lies outside [200, 226]". *)
Definition errorIffSendOrStatus {W : Type} `{!httpClient W}
           (urlSyntax : string -> bool) (s : Supervisor)
           (signature body : string) (w : W) : Prop :=
  let '(err, _, tr) := httpRequest urlSyntax s signature body w in
  err <> None <-> sendFailed tr \/ statusOutside tr.

(** A request as [httpRequest] is to send it for configuration [c]:
    a POST to the target URL, with a MAC header exactly when the
    secret key is not empty, its value the tag of the signer, and no
    header field besides MAC and Content-Type. *)
Definition goodRequest (c : WorkerConfig) (req : http.Request) : Prop :=
  http.Method req = "POST"%string
  /\ http.URL req = HTTPURL c
  /\ macHeader req =
     (if (0 <? length (SecretKey c))%nat
      then Some [sign (HTTPURL c) (http.Body req) (SecretKey c)]
      else None)
  /\ (forall k, http.Hdr req !! k <> None ->
                k = "Mac"%string \/ k = "Content-Type"%string).

(** Invariant of a process on configuration [c]: once there are
    workers, the package variable [signature] holds the canonical
    prefix of [c], and all requests sent so far are good. *)
Definition signatureInv {W : Type} (c : WorkerConfig) (p : Process (W := W))
  : Prop :=
  workerConfig (sup p) = c
  /\ (workers p <> [] -> signature p = signatureOf c)
  /\ (forall req res, In (EvDo req res) (trace p) -> goodRequest c req).

(** Invariant of the pool: before the first [Start] there is no
    worker and the counter is zero; the counter is the number of
    workers that have not returned, unless [Start] was called with a
    negative count, in which case it is negative and there is no
    worker; after the first [Start] the package variable holds the
    canonical prefix; a worker has returned only if the flag is set;
    nothing has panicked unless the counter is negative. *)
Definition poolInv {W : Type} (p : Process (W := W)) : Prop :=
  (startOnce (sup p) = false -> workers p = [] /\ wg (sup p) = 0)
  /\ (wg (sup p) = Z.of_nat (live (workers p))
      \/ (wg (sup p) < 0 /\ workers p = []))
  /\ (startOnce (sup p) = true ->
      signature p = signatureOf (workerConfig (sup p)))
  /\ (In pcReturned (workers p) -> shutdown (sup p) = true)
  /\ (forall msg, In (EvPanic msg) (trace p) -> wg (sup p) < 0).

(** After [Shutdown], the workers that have not gone past the top of
    the loop: they will make no call. *)
Definition quiet {W : Type} (p : Process (W := W)) : Prop :=
  shutdown (sup p) = true
  /\ Forall (fun pc => pc = pcEntry \/ pc = pcLoop \/ pc = pcReturned)
            (workers p).

Section Starts.
Context {W : Type} `{!SQSAPI W} `{!httpClient W}.
Variable urlSyntax : string -> bool.

(** The number of goroutines a new Supervisor has spawned after the
    calls [Start(n1)], [Start(n2)], ... *)
Definition spawnedBy (c : WorkerConfig) (w : W) (ns : list Z) : option Z :=
  match exec urlSyntax (map CallStart ns) (initial c w) with
  | Some p => Some (Z.of_nat (length (workers p)))
  | None => None
  end.

(** "Exactly the first call's worker count is spawned". *)
Definition firstStartSpawnsItsCount (c : WorkerConfig) (w : W)
           (n1 : Z) (ns : list Z) : Prop :=
  spawnedBy c w (n1 :: ns) = Some n1.
End Starts.


End notions.

(** ** Readings of the history of a process *)
Module ledger.
Import supervisor notions.

(** The requests of a trace, in order. *)
Definition requests (tr : list Event) : list http.Request :=
  flat_map (fun e => match e with EvDo req _ => [req] | _ => [] end) tr.

(** The request [httpRequest] sends for a message body. *)
Definition requestFor (c : WorkerConfig) (signature body : string)
  : http.Request :=
  decorate c signature body (http.mkRequest "POST" (HTTPURL c) body ∅).

(** [http.NewRequest] accepts the target URL. *)
Definition urlParses (urlSyntax : string -> bool) (c : WorkerConfig) : bool :=
  negb (http.stringContainsCTLByte (http.cutFragment (HTTPURL c)))
  && urlSyntax (HTTPURL c).

(** The input of the receive calls of configuration [c]. *)
Definition receiveInput (c : WorkerConfig) : sqs.ReceiveMessageInput :=
  sqs.mkReceiveInput (QueueMaxMessages c) (QueueURL c) (QueueWaitTime c).

(** A receive call of the trace returned the message. *)
Definition receivedIn (tr : list Event) (m : sqs.Message) : Prop :=
  exists input out,
    In (EvReceive input (inl out)) tr /\ In m (sqs.Messages out).

(** A request of the trace with the body of the message was answered
    with a status in [200, 226]. *)
Definition acceptedIn (tr : list Event) (m : sqs.Message) : Prop :=
  exists req res,
    In (EvDo req (inl res)) tr
    /\ http.Body req = sqs.Body m
    /\ 200 <= http.StatusCode res <= 226.

(** An entry of a delete batch that the trace accounts for. *)
Definition settledIn (tr : list Event)
           (e : sqs.DeleteMessageBatchRequestEntry) : Prop :=
  exists m, e = deleteEntry m /\ receivedIn tr m /\ acceptedIn tr m.

(** What the events before it must hold for an event to be in order. *)
Definition okAfter (c : WorkerConfig) (tr : list Event) (e : Event) : Prop :=
  match e with
  | EvReceive input _ => input = receiveInput c
  | EvDo req _ => exists m, receivedIn tr m /\ http.Body req = sqs.Body m
  | EvDelete input _ =>
      sqs.DeleteQueueUrl input = QueueURL c
      /\ sqs.Entries input <> []
      /\ (forall e, In e (sqs.Entries input) -> settledIn tr e)
  | _ => True
  end.

Inductive Ordered (c : WorkerConfig) : list Event -> Prop :=
| Ordered_nil : Ordered c []
| Ordered_snoc (tr : list Event) (e : Event) :
    Ordered c tr -> okAfter c tr e -> Ordered c (tr ++ [e]).

Fixpoint OrderedFrom (c : WorkerConfig) (tr0 tr : list Event) : Prop :=
  match tr with
  | [] => True
  | e :: rest => okAfter c tr0 e /\ OrderedFrom c (tr0 ++ [e]) rest
  end.

(** What a worker in its range loop holds: messages that were received,
    entries that are settled. *)
Definition pending (tr : list Event) (pc : PC) : Prop :=
  match pc with
  | pcDispatch msgs es =>
      (forall m, In m msgs -> receivedIn tr m)
      /\ (forall e, In e es -> settledIn tr e)
  | _ => True
  end.

Definition ledgerInv {W : Type} (c : WorkerConfig) (p : Process (W := W))
  : Prop :=
  workerConfig (sup p) = c
  /\ Ordered c (trace p)
  /\ Forall (pending (trace p)) (workers p).

(** No call of [Start] of the run has a negative count. *)
Definition startsNonNegative (ls : list Label) : Prop :=
  forall n, In (CallStart n) ls -> 0 <= n.

(** Every call of [Start] of the run has a count that the 32-bit
    counter of the wait group holds: at least 0 and below 2^31. *)
Definition startsInRange (ls : list Label) : Prop :=
  forall n, In (CallStart n) ls -> 0 <= n < 2 ^ 31.

Definition isStep (l : Label) : bool :=
  match l with Step _ => true | _ => false end.

(** A schedule of worker steps only. *)
Definition stepsOnly (ls : list Label) : Prop :=
  Forall (fun l => isStep l = true) ls.

(** A byte that is a decimal digit. *)
Definition isDigitByte (c : ascii) : bool :=
  (48 <=? Z_of_ascii c) && (Z_of_ascii c <=? 57).

(** The events of a trace that are requests or delete calls. *)
Definition sendsOrDeletes (tr : list Event) : list Event :=
  List.filter (fun e => isDo e || isDelete e) tr.

End ledger.

(** ** More runs of the scenario *)
Module runs.
Import scenario.

(** A batch of two messages: the endpoint answers 500 to the first and
    204 to the second. *)
Definition twoMessages : World :=
  mkWorld [inl (sqs.mkReceiveOutput [msg "500" "A"; msg "204" "B"])] [].

(** One worker through its first poll cycle, no [Shutdown]. *)
Definition fullCycle : list supervisor.Label :=
  supervisor.CallStart 1 :: repeat (supervisor.Step 0) 6.

(** One worker stopped in its poll cycle, up to its return. *)
Definition stopped : list supervisor.Label :=
  [supervisor.CallStart 1; supervisor.Step 0; supervisor.Step 0;
   supervisor.CallShutdown; supervisor.Step 0; supervisor.Step 0].

(** Two workers started after [Shutdown]. *)
Definition lateStart : list supervisor.Label :=
  [supervisor.CallStart 2; supervisor.Step 0; supervisor.Step 0;
   supervisor.Step 1].

Definition brokenConf : supervisor.WorkerConfig := conf urlWithDEL "".

Definition otherConf : supervisor.WorkerConfig :=
  conf "https://other.example/in" "k".

(** An environment with a key, and the run [main] starts from it. *)
Definition signedEnv : os.Environ :=
  list_to_map
    [("SQSD_QUEUE_REGION", "eu-west-1");
     ("SQSD_QUEUE_URL", "https://sqs.example/q");
     ("SQSD_HTTP_URL", "https://example.com/hook/");
     ("SQSD_HTTP_CONTENT_TYPE", "application/json");
     ("APP_API_SECRET_KEY", "s3cr3t")]%string.

Definition daemonRun : list supervisor.Label :=
  supervisor.CallStart 50 :: repeat (supervisor.Step 7) 4.

(** Values of SQSD_HTTP_MAX_CONNS that do not parse. *)
Definition blankEnv : os.Environ :=
  {[ "SQSD_HTTP_MAX_CONNS"%string := " 5"%string ]}.

Definition hugeEnv : os.Environ :=
  {[ "SQSD_HTTP_MAX_CONNS"%string := "9223372036854775808"%string ]}.

End runs.

(** * Properties *)

(** ** The models of the library against known values *)

Example sha256_constants :
  length sha256._K = 64%nat
  /\ nth 0 sha256._K 0 = 0x428a2f98 /\ nth 63 sha256._K 0 = 0xc67178f2
  /\ sha256.h0 sha256.init = 0x6a09e667 /\ sha256.h7 sha256.init = 0x5be0cd19.
Proof. repeat split; reflexivity. Qed.

Example sha256_abc :
  hex.EncodeToString (sha256.Sum256 (bytes_of_string "abc"))
  = "ba7816bf8f01cfea414140de5dae2223b00361a396177a9cb410ff61f20015ad"%string.
Proof. vm_compute. reflexivity. Qed.

Example sha256_two_blocks :
  hex.EncodeToString (sha256.Sum256 (repeat "a"%byte 120))
  = "2f3d335432c70b580af0e8e1b3674a7c020d683aa5f73aaaedfdc55af904c21c"%string.
Proof. vm_compute. reflexivity. Qed.

Example hmac_rfc4231_case2 :
  hex.EncodeToString
    (hmac.Sum (bytes_of_string "Jefe")
              (bytes_of_string "what do ya want for nothing?"))
  = "5bdcc146bf60754e6a042426089575c75a003f089d2739839dec58b964ec3843"%string.
Proof. vm_compute. reflexivity. Qed.

Example hmac_long_key :
  hex.EncodeToString (hmac.Sum (repeat "k"%byte 100) (bytes_of_string "hello"))
  = "3fd578d761a4f6703009e92d2e8a0aea22ab9ab50d4ad250dc95d8c369dec3f5"%string.
Proof. vm_compute. reflexivity. Qed.

Example canonical_header_keys :
  textproto.CanonicalMIMEHeaderKey "MAC" = "Mac"%string
  /\ textproto.CanonicalMIMEHeaderKey "Content-Type" = "Content-Type"%string.
Proof. split; reflexivity. Qed.

Example atoi_values :
  map strconv.Atoi ["-12"; "+7"; "007"; ""; "-"; "1_0"; "12a";
                    "9223372036854775808"; "-9223372036854775808"]%string
  = [(-12, None); (7, None); (7, None); (0, Some strconv.ErrSyntax);
     (0, Some strconv.ErrSyntax); (0, Some strconv.ErrSyntax);
     (0, Some strconv.ErrSyntax); (strconv.maxInt, Some strconv.ErrRange);
     (strconv.minInt, None)].
Proof. vm_compute. reflexivity. Qed.

(** ** strings.TrimRight *)
Section TrimRight.
Import gostrings.

Lemma append_cons (a : ascii) (s t : string) :
  String a s +:+ t = String a (s +:+ t).
Proof. reflexivity. Qed.

Lemma append_nil_r (s : string) : s +:+ EmptyString = s.
Proof.
  induction s as [|a s IH]; [reflexivity|]. now rewrite append_cons, IH.
Qed.

Lemma append_assoc (s t u : string) : (s +:+ t) +:+ u = s +:+ (t +:+ u).
Proof.
  induction s as [|a s IH]; [reflexivity|]. now rewrite !append_cons, IH.
Qed.

(** A trailing byte of the cutset does not count. *)
Lemma TrimRight_snoc (s cutset : string) (c : ascii) :
  inCutset cutset c = true ->
  TrimRight (s +:+ String c EmptyString) cutset = TrimRight s cutset.
Proof.
  intros Hc. induction s as [|a s IH].
  - change (EmptyString +:+ String c EmptyString) with (String c EmptyString).
    cbn [TrimRight]. now rewrite Hc.
  - rewrite append_cons. cbn [TrimRight]. now rewrite IH.
Qed.

Lemma Repeat_snoc (c : ascii) (n : nat) :
  Repeat (String c EmptyString) (S n)
  = Repeat (String c EmptyString) n +:+ String c EmptyString.
Proof.
  induction n as [|n IH]; [reflexivity|].
  change (Repeat (String c EmptyString) (S (S n)))
    with (String c (Repeat (String c EmptyString) (S n))).
  rewrite IH at 1. reflexivity.
Qed.

Lemma TrimRight_Repeat (s cutset : string) (c : ascii) (n : nat) :
  inCutset cutset c = true ->
  TrimRight (s +:+ Repeat (String c EmptyString) n) cutset
  = TrimRight s cutset.
Proof.
  intros Hc. induction n as [|n IH].
  - cbn [Repeat]. now rewrite append_nil_r.
  - rewrite Repeat_snoc, <- append_assoc, TrimRight_snoc; assumption.
Qed.

(** What is left does not end in a byte of the cutset. *)
Lemma TrimRight_last (s cutset : string) (c : ascii) :
  lastByte (TrimRight s cutset) = Some c -> inCutset cutset c = false.
Proof.
  induction s as [|a s IH]; cbn [TrimRight]; [discriminate|].
  destruct (TrimRight s cutset) as [|b r] eqn:E.
  - destruct (inCutset cutset a) eqn:Ha; cbn; [discriminate|].
    intros [= <-]. exact Ha.
  - exact IH.
Qed.

(** What was cut is a run of bytes of the cutset. *)
Lemma TrimRight_suffix (s cutset : string) :
  exists t, s = TrimRight s cutset +:+ t
            /\ forallb (inCutset cutset) (list_ascii_of_string t) = true.
Proof.
  induction s as [|a s (t & Ht & Hall)]; cbn [TrimRight].
  - exists EmptyString. split; reflexivity.
  - destruct (TrimRight s cutset) as [|b r] eqn:E.
    + destruct (inCutset cutset a) eqn:Ha.
      * exists (String a t). cbn. rewrite Ha, Hall. split; [|reflexivity].
        now rewrite Ht at 1.
      * exists t. split; [|exact Hall]. rewrite append_cons.
        now rewrite Ht at 1.
    + exists t. split; [|exact Hall]. rewrite append_cons. now rewrite <- Ht.
Qed.

End TrimRight.

(** ** encoding/hex and the digest sizes *)

Lemma hex_length (src : list byte) :
  String.length (hex.EncodeToString src) = (2 * length src)%nat.
Proof. induction src as [|v src IH]; simpl; [reflexivity | rewrite IH; lia]. Qed.



Lemma sha256_size (data : list byte) :
  length (sha256.Sum256 data) = sha256.Size.
Proof. reflexivity. Qed.

Lemma hmac_size (key msg : list byte) : length (hmac.Sum key msg) = 32%nat.
Proof. apply sha256_size. Qed.

Lemma getMac_length (sig : string) (key : list byte) :
  String.length (supervisor.getMac sig key) = 64%nat.
Proof. unfold supervisor.getMac. now rewrite hex_length, hmac_size. Qed.

(** ** httpRequest *)
Section HttpRequest.
Import supervisor notions.
Context {W : Type} `{!SQSAPI W} `{!httpClient W}.
Variable urlSyntax : string -> bool.

Lemma NewRequest_inl (method url body : string) (req : http.Request) :
  http.NewRequest urlSyntax method url body = inl req ->
  req = http.mkRequest method url body ∅.
Proof.
  unfold http.NewRequest.
  destruct (http.stringContainsCTLByte _); [discriminate|].
  destruct (urlSyntax url); [|discriminate]. now intros [= <-].
Qed.

(** [httpRequest] in one equation: no request, or one call of the
    client with the decorated request and the verdict on its answer. *)
Lemma httpRequest_run (s : Supervisor) (sig body : string) (w : W) :
  httpRequest urlSyntax s sig body w =
  match http.NewRequest urlSyntax "POST" (HTTPURL (workerConfig s)) body with
  | inr err => (Some ("Error while creating HTTP request: " +:+ err), w, [])
  | inl req0 =>
      let req := decorate (workerConfig s) sig body req0 in
      let '(res, w') := Do req w in
      (verdict res, w', EvDo req res :: closing res)
  end.
Proof.
  unfold httpRequest.
  destruct (http.NewRequest _ _ _ _) as [req0|err]; [|reflexivity].
  unfold decorate, mbind, M_bind, httpClientDo. cbn zeta.
  destruct (Do _ w) as [[res|err] w']; [|reflexivity].
  unfold verdict, emit.
  destruct (_ || _); reflexivity.
Qed.

Lemma verdict_None (res : http.Response + error) :
  verdict res = None <->
  exists r, res = inl r /\ 200 <= http.StatusCode r <= 226.
Proof.
  unfold verdict, http.StatusOK, http.StatusIMUsed.
  destruct res as [r|e].
  - destruct (Z.ltb_spec (http.StatusCode r) 200);
      destruct (Z.ltb_spec 226 (http.StatusCode r)); cbn; split;
      try discriminate; try (intros (r' & [= <-] & ?); lia);
      try reflexivity.
    intros _. exists r. split; [reflexivity | lia].
  - split; [discriminate | intros (r & ? & _); discriminate].
Qed.

Lemma In_Do_run (req req' : http.Request) (res res' : http.Response + error) :
  In (EvDo req' res') (EvDo req res :: closing res) ->
  req' = req /\ res' = res.
Proof.
  intros [[= -> ->]|H]; [now split|].
  destruct res; cbn in H; [destruct H as [H|[]]; discriminate | destruct H].
Qed.

(** C1, amended: [httpRequest] returns an error if and only if the
    request cannot be built (the URL does not parse), or the send
    fails at the transport level, or the status of the response lies
    outside [200, 226]; every response with a status in [200, 226]
    gives success, and the statuses 199 and 227 give an error. *)
Theorem httpRequest_error_iff (s : Supervisor) (sig body : string) (w : W) :
  let '(err, _, tr) := httpRequest urlSyntax s sig body w in
  (err <> None <->
   requestNotBuilt urlSyntax s body \/ sendFailed tr \/ statusOutside tr)
  /\ (forall req res,
        In (EvDo req (inl res)) tr ->
        200 <= http.StatusCode res <= 226 -> err = None)
  /\ (forall req res,
        In (EvDo req (inl res)) tr ->
        http.StatusCode res = 199 \/ http.StatusCode res = 227 ->
        err <> None).
Proof.
  rewrite httpRequest_run. unfold requestNotBuilt.
  destruct (http.NewRequest _ _ _ _) as [req0|e] eqn:Hnew.
  - cbn zeta.
    destruct (Do _ w) as [res w'].
    pose proof (verdict_None res) as Hv.
    split; [split|split].
    + intros Herr. right.
      destruct res as [r|e].
      * right. exists (decorate (workerConfig s) sig body req0), r.
        split; [now left|]. intros Hr. apply Herr, Hv. now exists r.
      * left. exists (decorate (workerConfig s) sig body req0), e. now left.
    + intros [(e & He)|[(req & e & Hin)|(req & r & Hin & Hout)]] Hnone.
      * discriminate.
      * apply In_Do_run in Hin as [_ <-].
        apply Hv in Hnone as (r & ? & _). discriminate.
      * apply In_Do_run in Hin as [_ <-].
        apply Hv in Hnone as (r' & [= <-] & ?). contradiction.
    + intros req r Hin Hr. apply In_Do_run in Hin as [_ <-].
      apply Hv. now exists r.
    + intros req r Hin Hr Hnone. apply In_Do_run in Hin as [_ <-].
      apply Hv in Hnone as (r' & [= <-] & ?). lia.
  - split; [split|split].
    + intros _. left. now exists e.
    + discriminate.
    + intros ? ? [].
    + intros ? ? [].
Qed.

End HttpRequest.

(** C1 as the specification states it does not hold: with a target URL
    that does not parse, [httpRequest] returns an error although nothing
    was sent and no response was received. *)
Lemma httpRequest_error_without_send :
  ~ notions.errorIffSendOrStatus scenario.anyURL
      (supervisor.NewSupervisor (scenario.conf scenario.urlWithDEL ""))
      "" "200" scenario.idle.
Proof.
  unfold notions.errorIffSendOrStatus. rewrite httpRequest_run.
  set (r := http.NewRequest _ _ _ _). vm_compute in r. subst r. cbv beta iota.
  intros [H _].
  destruct H as [(? & ? & [])|(? & ? & [] & _)]. discriminate.
Qed.

Lemma httpRequest_error_iff_witness :
  let '(err, _, tr) :=
    supervisor.httpRequest scenario.anyURL
      (supervisor.NewSupervisor (scenario.conf "https://example.com/hook/" ""))
      "" "227" scenario.idle in
  err <> None /\ notions.statusOutside tr.
Proof.
  pose proof (httpRequest_error_iff scenario.anyURL
    (supervisor.NewSupervisor (scenario.conf "https://example.com/hook/" ""))
    "" "227" scenario.idle) as H.
  destruct (supervisor.httpRequest _ _ _ _ _) as [[err w] tr] eqn:E.
  vm_compute in E. injection E as <- <- <-.
  destruct H as (_ & _ & H).
  split.
  - eapply H; [left; reflexivity | right; reflexivity].
  - eexists _, _. split; [left; reflexivity|]. cbn. lia.
Defined.

(** ** The request signature *)
Section Signature.
Import supervisor notions.

Lemma getMac_sign (c : WorkerConfig) (body : string) :
  getMac (signatureOf c +:+ body) (SecretKey c)
  = sign (HTTPURL c) body (SecretKey c).
Proof.
  unfold getMac, sign, signatureOf, canonicalString.
  now rewrite !append_assoc.
Qed.

Lemma decorate_fields (c : WorkerConfig) (sig body : string)
      (req : http.Request) :
  http.Method (decorate c sig body req) = http.Method req
  /\ http.URL (decorate c sig body req) = http.URL req
  /\ http.Body (decorate c sig body req) = http.Body req.
Proof.
  unfold decorate.
  destruct (0 <? length (SecretKey c))%nat;
    destruct (0 <? String.length (HTTPContentType c))%nat; now repeat split.
Qed.

Lemma decorate_macHeader (c : WorkerConfig) (sig body m u b : string) :
  macHeader (decorate c sig body (http.mkRequest m u b ∅))
  = if (0 <? length (SecretKey c))%nat
    then Some [getMac (sig +:+ body) (SecretKey c)]
    else None.
Proof.
  unfold decorate, macHeader, setHeader, http.Header_Set.
  change (textproto.CanonicalMIMEHeaderKey "MAC") with "Mac"%string.
  change (textproto.CanonicalMIMEHeaderKey "Content-Type")
    with "Content-Type"%string.
  destruct (0 <? length (SecretKey c))%nat;
    destruct (0 <? String.length (HTTPContentType c))%nat;
    cbn [http.Hdr];
    rewrite ?(lookup_insert_ne _ "Content-Type"%string "Mac"%string) by done;
    now rewrite ?lookup_insert_eq, ?lookup_empty.
Qed.

Lemma decorate_keys (c : WorkerConfig) (sig body m u b k : string) :
  http.Hdr (decorate c sig body (http.mkRequest m u b ∅)) !! k <> None ->
  k = "Mac"%string \/ k = "Content-Type"%string.
Proof.
  unfold decorate, setHeader, http.Header_Set.
  change (textproto.CanonicalMIMEHeaderKey "MAC") with "Mac"%string.
  change (textproto.CanonicalMIMEHeaderKey "Content-Type")
    with "Content-Type"%string.
  destruct (decide (k = "Mac"%string)) as [|Hm]; [now left|].
  destruct (decide (k = "Content-Type"%string)) as [|Hc]; [now right|].
  destruct (0 <? length (SecretKey c))%nat;
    destruct (0 <? String.length (HTTPContentType c))%nat;
    cbn [http.Hdr];
    rewrite ?(lookup_insert_ne _ "Content-Type"%string k) by congruence;
    rewrite ?(lookup_insert_ne _ "Mac"%string k) by congruence;
    rewrite lookup_empty; congruence.
Qed.


Context {W : Type} `{!SQSAPI W} `{!httpClient W}.
Variable urlSyntax : string -> bool.

(** The requests of one [httpRequest] under the signature of [Start]. *)
Lemma httpRequest_good (s : Supervisor) (body : string) (w : W)
      (req : http.Request) (res : http.Response + error) :
  In (EvDo req res)
     (httpRequest urlSyntax s (signatureOf (workerConfig s)) body w).2 ->
  http.Body req = body /\ goodRequest (workerConfig s) req.
Proof.
  rewrite httpRequest_run.
  destruct (http.NewRequest _ _ _ _) as [req0|e] eqn:Hnew; [|intros []].
  apply NewRequest_inl in Hnew as ->. cbn zeta.
  destruct (Do _ w) as [r w']. cbn [snd].
  intros Hin. apply In_Do_run in Hin as [-> _].
  destruct (decorate_fields (workerConfig s) (signatureOf (workerConfig s))
              body (http.mkRequest "POST" (HTTPURL (workerConfig s)) body ∅))
    as (Hm & Hu & Hb).
  cbn in Hm, Hu, Hb.
  split; [exact Hb|]. split; [exact Hm|]. split; [exact Hu|]. split.
  - rewrite decorate_macHeader, Hb, getMac_sign. reflexivity.
  - intros k. apply decorate_keys.
Qed.

End Signature.

(** ** The worker, step by step *)
Section Worker.
Import supervisor notions.
Context {W : Type} `{!SQSAPI W} `{!httpClient W}.
Variable urlSyntax : string -> bool.

Lemma bind_run {A B : Type} (m : M A) (f : A -> M B) (w : W) :
  (m ≫= f) w =
  let '(a, w1, t1) := m w in
  let '(b, w2, t2) := f a w1 in (b, w2, t1 ++ t2).
Proof. reflexivity. Qed.

Ltac run :=
  unfold workerStep, acknowledge, cycle, iteration;
  rewrite ?bind_run;
  unfold mret, M_ret, Info, Errorf, emit, sqsReceiveMessage,
    sqsDeleteMessageBatch.

(** The requests of a step are those of a call of [httpRequest]. *)
Lemma workerStep_Do (s : Supervisor) (sig : string) (pc : PC) (w : W)
      (req : http.Request) (res : http.Response + error) :
  In (EvDo req res) (workerStep urlSyntax s sig pc w).2 ->
  exists body, In (EvDo req res) (httpRequest urlSyntax s sig body w).2.
Proof.
  destruct pc as [| | |[|msg rest] es|]; run.
  - intros [?|[]]; discriminate.
  - destruct (shutdown s); intros [].
  - destruct (ReceiveMessage _ w) as [[out|e] w1]; cbn.
    + destruct (length (sqs.Messages out) =? 0)%nat; cbn;
        intros [?|[]]; discriminate.
    + intros [?|[?|[]]]; discriminate.
  - destruct (length es =? 0)%nat; cbn; [intros []|].
    rewrite bind_run. destruct (DeleteMessageBatch _ w) as [[e|] w1]; cbn.
    + intros [?|[?|[]]]; discriminate.
    + intros [?|[]]; discriminate.
  - intros Hin. exists (sqs.Body msg).
    destruct (httpRequest _ _ _ _ w) as [[[e|] w1] tr];
      rewrite ?bind_run in Hin; cbn in *.
    + apply in_app_or in Hin as [Hin|[?|[]]]; [exact Hin | discriminate].
    + now rewrite app_nil_r in Hin.
  - intros [].
Qed.

(** A step from the entry or from the top of the loop with the flag
    set makes no call, and leads to the top of the loop or out. *)
Lemma workerStep_quiet (s : Supervisor) (sig : string) (pc : PC) (w : W) :
  shutdown s = true ->
  pc = pcEntry \/ pc = pcLoop ->
  exists pc' tr,
    workerStep urlSyntax s sig pc w = (pc', w, tr)
    /\ (pc' = pcLoop \/ pc' = pcReturned)
    /\ calls tr = [].
Proof.
  intros Hs [-> | ->]; run; cbn.
  - eexists _, _. split; [reflexivity|]. split; [now left | reflexivity].
  - rewrite Hs. eexists _, _. split; [reflexivity|].
    split; [now right | reflexivity].
Qed.

(** The worker returns only from the top of the loop, with the flag
    set. *)
Lemma workerStep_returned (s : Supervisor) (sig : string) (pc : PC) (w : W) :
  (workerStep urlSyntax s sig pc w).1.1 = pcReturned ->
  pc = pcReturned \/ (pc = pcLoop /\ shutdown s = true).
Proof.
  destruct pc as [| | |[|msg rest] es|]; run.
  - discriminate.
  - destruct (shutdown s); [now right | discriminate].
  - destruct (ReceiveMessage _ w) as [[out|e] w1]; cbn; [|discriminate].
    destruct (length (sqs.Messages out) =? 0)%nat; discriminate.
  - destruct (length es =? 0)%nat; cbn; [discriminate|].
    rewrite bind_run. destruct (DeleteMessageBatch _ w) as [[e|] w1];
      discriminate.
  - destruct (httpRequest _ _ _ _ w) as [[[e|] w1] tr];
      rewrite ?bind_run; discriminate.
  - now left.
Qed.

(** Away from the top of the loop a step does not read the flag. *)
Lemma workerStep_flag (s : Supervisor) (sig : string) (pc : PC) (b : bool) :
  pc <> pcLoop ->
  workerStep urlSyntax (withShutdown s b) sig pc
  = workerStep urlSyntax s sig pc.
Proof. intros Hne. destruct pc; try reflexivity. congruence. Qed.

Lemma httpRequest_no_panic (s : Supervisor) (sig body msg : string) (w : W) :
  ~ In (EvPanic msg) (httpRequest urlSyntax s sig body w).2.
Proof.
  rewrite httpRequest_run.
  destruct (http.NewRequest _ _ _ _) as [req0|e0]; [|intros []]. cbn zeta.
  destruct (Do _ w) as [[r|e] w']; cbn; intuition discriminate.
Qed.

(** The worker itself does not panic. *)
Lemma workerStep_no_panic (s : Supervisor) (sig : string) (pc : PC) (w : W)
      (msg : string) :
  ~ In (EvPanic msg) (workerStep urlSyntax s sig pc w).2.
Proof.
  destruct pc as [| | |[|m rest] es|]; run.
  - intros [?|[]]; discriminate.
  - destruct (shutdown s); intros [].
  - destruct (ReceiveMessage _ w) as [[out|e] w1]; cbn.
    + destruct (length (sqs.Messages out) =? 0)%nat; cbn;
        intros [?|[]]; discriminate.
    + intros [?|[?|[]]]; discriminate.
  - destruct (length es =? 0)%nat; cbn; [intros []|].
    rewrite bind_run. destruct (DeleteMessageBatch _ w) as [[e|] w1]; cbn.
    + intros [?|[?|[]]]; discriminate.
    + intros [?|[]]; discriminate.
  - intros Hin. pose proof (httpRequest_no_panic s sig (sqs.Body m) msg w) as Hno.
    destruct (httpRequest _ _ _ _ w) as [[[e|] w1] tr];
      rewrite ?bind_run in Hin; cbn in *.
    + apply in_app_or in Hin as [Hin|[?|[]]]; [auto | discriminate].
    + rewrite app_nil_r in Hin. auto.
  - intros [].
Qed.

End Worker.

(** ** The process *)
Section Process.
Import supervisor notions.
Context {W : Type} `{!SQSAPI W} `{!httpClient W}.
Variable urlSyntax : string -> bool.

(** What a step of goroutine [i] changes. *)
Lemma goroutineStep_inv (i : nat) (p p' : Process (W := W)) :
  goroutineStep urlSyntax i p = Some p' ->
  exists pc pc' tr,
    workers p !! i = Some pc /\ pc <> pcReturned
    /\ workerStep urlSyntax (sup p) (signature p) pc (world p)
       = (pc', world p', tr)
    /\ signature p' = signature p
    /\ workers p' = <[i := pc']> (workers p)
    /\ workerConfig (sup p') = workerConfig (sup p)
    /\ startOnce (sup p') = startOnce (sup p)
    /\ shutdown (sup p') = shutdown (sup p)
    /\ wg (sup p') = (if isReturned pc' then wg (sup p) - 1 else wg (sup p))
    /\ trace p' = trace p ++ tr ++
                  (if isReturned pc' && (wg (sup p) - 1 <? 0)
                   then [EvPanic "sync: negative WaitGroup counter"] else []).
Proof.
  unfold goroutineStep. destruct (workers p !! i) as [pc|] eqn:Hi; [|discriminate].
  destruct (workerStep urlSyntax (sup p) (signature p) pc (world p))
    as [[pc' w'] tr] eqn:Hstep.
  intros Hp'. exists pc, pc', tr.
  assert (pc <> pcReturned) as Hne by (intros ->; discriminate).
  destruct pc; try congruence;
    destruct pc'; injection Hp' as <-; cbn;
    rewrite ?app_nil_r, ?Z.add_opp_r; destruct (sup p); repeat split; done.
Qed.

Lemma Start_fields (n : Z) (p : Process (W := W)) :
  signature (Start n p) = signatureOf (workerConfig (sup p))
  /\ workerConfig (sup (Start n p)) = workerConfig (sup p)
  /\ shutdown (sup (Start n p)) = shutdown (sup p)
  /\ startOnce (sup (Start n p)) = true
  /\ world (Start n p) = world p
  /\ calls (trace (Start n p)) = calls (trace p)
  /\ (forall req res, In (EvDo req res) (trace (Start n p)) ->
                      In (EvDo req res) (trace p)).
Proof.
  unfold Start, wgAdd. destruct (startOnce (sup p)) eqn:Hs.
  - cbn. repeat split; auto.
  - destruct (wg (sup p) + n <? 0); cbn; repeat split; auto.
    + unfold calls. now rewrite List.filter_app, app_nil_r.
    + intros req res Hin. apply in_app_or in Hin as [Hin|[?|[]]];
        [exact Hin | discriminate].
Qed.

Lemma step_signatureInv (c : WorkerConfig) (l : Label)
      (p p' : Process (W := W)) :
  signatureInv c p -> step urlSyntax l p = Some p' -> signatureInv c p'.
Proof.
  intros (Hc & Hsig & Hreq) Hstep. destruct l as [n| | |i]; cbn in Hstep.
  - injection Hstep as <-.
    destruct (Start_fields n p) as (Hs & Hc' & _ & _ & _ & _ & Htr).
    split; [|split].
    + now rewrite Hc'.
    + intros _. now rewrite Hs, Hc.
    + intros req res Hin. eapply Hreq, Htr, Hin.
  - injection Hstep as <-. split; [|split]; assumption.
  - destruct (WaitReturns p); [|discriminate]. injection Hstep as <-.
    split; [|split]; assumption.
  - apply goroutineStep_inv in Hstep
      as (pc & pc' & tr & Hi & _ & Hws & Hs & _ & Hc' & _ & _ & _ & Htr).
    assert (signature p = signatureOf c) as Hsp.
    { apply Hsig. intros Hnil. now rewrite Hnil in Hi. }
    split; [|split].
    + now rewrite Hc'.
    + intros _. now rewrite Hs.
    + intros req res Hin. rewrite Htr in Hin.
      apply in_app_or in Hin as [Hin|Hin]; [eapply Hreq, Hin|].
      apply in_app_or in Hin as [Hin|Hin].
      * assert (tr = (workerStep urlSyntax (sup p) (signature p) pc (world p)).2)
          as Htr' by now rewrite Hws.
        rewrite Htr' in Hin. apply workerStep_Do in Hin as (body & Hin).
        rewrite Hsp, <- Hc in Hin. apply httpRequest_good in Hin as [_ Hg].
        now rewrite Hc in Hg.
      * destruct (_ && _); [destruct Hin as [?|[]]; discriminate | destruct Hin].
Qed.

Lemma exec_signatureInv (c : WorkerConfig) (ls : list Label)
      (p p' : Process (W := W)) :
  signatureInv c p -> exec urlSyntax ls p = Some p' -> signatureInv c p'.
Proof.
  revert p. induction ls as [|l ls IH]; intros p Hinv; cbn.
  - now intros [= <-].
  - destruct (step urlSyntax l p) as [p1|] eqn:Hstep; [|discriminate].
    apply IH. eapply step_signatureInv; eassumption.
Qed.

Lemma initial_signatureInv (c : WorkerConfig) (w : W) :
  signatureInv c (initial c w).
Proof. split; [|split]; [reflexivity | intros H; now elim H | intros ? ? []]. Qed.

Lemma exec_app (ls1 ls2 : list Label) (p : Process (W := W)) :
  exec urlSyntax (ls1 ++ ls2) p
  = match exec urlSyntax ls1 p with
    | Some p1 => exec urlSyntax ls2 p1
    | None => None
    end.
Proof.
  revert p. induction ls1 as [|l ls1 IH]; intros p; [reflexivity|].
  cbn. destruct (step urlSyntax l p); [apply IH | reflexivity].
Qed.

Lemma calls_app (t1 t2 : list Event) : calls (t1 ++ t2) = calls t1 ++ calls t2.
Proof. apply List.filter_app. Qed.

Lemma live_repeat_entry (n : nat) : live (repeat pcEntry n) = n.
Proof. induction n as [|n IH]; [reflexivity | cbn; now rewrite IH]. Qed.

Lemma live_app (ws1 ws2 : list PC) : live (ws1 ++ ws2) = (live ws1 + live ws2)%nat.
Proof.
  induction ws1 as [|pc ws1 IH]; [reflexivity|]. cbn.
  destruct (isReturned pc); cbn; now rewrite IH.
Qed.

(** A worker that has not returned takes a step. *)
Lemma live_insert (ws : list PC) (i : nat) (pc pc' : PC) :
  ws !! i = Some pc -> isReturned pc = false ->
  (1 <= live ws)%nat
  /\ live (<[i := pc']> ws)
     = (if isReturned pc' then live ws - 1 else live ws)%nat.
Proof.
  revert i. induction ws as [|a ws IH]; intros i Hi Hpc; [discriminate|].
  destruct i as [|i].
  - injection Hi as ->.
    change (<[0%nat := pc']> (pc :: ws)) with (pc' :: ws).
    cbn [live]. rewrite Hpc. split; [lia|].
    destruct (isReturned pc'); lia.
  - change (<[S i := pc']> (a :: ws)) with (a :: <[i := pc']> ws).
    cbn [live]. destruct (IH i Hi Hpc) as [Hl ->].
    destruct (isReturned a); destruct (isReturned pc'); split; lia.
Qed.

Lemma live_zero (ws : list PC) :
  live ws = O -> Forall (fun pc => pc = pcReturned) ws.
Proof.
  induction ws as [|pc ws IH]; cbn; [constructor|].
  destruct pc; cbn; try discriminate. intros H. constructor; auto.
Qed.

Lemma In_insert (ws : list PC) (i : nat) (pc x : PC) :
  In x (<[i := pc]> ws) -> x = pc \/ In x ws.
Proof.
  revert i. induction ws as [|a ws IH]; intros i; [intros []|].
  destruct i as [|i]; cbn.
  - intros [<-|H]; [now left | right; now right].
  - intros [<-|H]; [right; now left|].
    destruct (IH i H) as [->|?]; [now left | right; now right].
Qed.

Lemma Start_workers (n : Z) (p : Process (W := W)) :
  workers (Start n p)
  = if startOnce (sup p) || (wg (sup p) + n <? 0) then workers p
    else workers p ++ repeat pcEntry (Z.to_nat n).
Proof.
  unfold Start, wgAdd. destruct (startOnce (sup p)); [reflexivity|].
  destruct (wg (sup p) + n <? 0); reflexivity.
Qed.

(** A later [Start] changes nothing. *)
Lemma Start_again (n : Z) (p : Process (W := W)) :
  startOnce (sup p) = true ->
  signature p = signatureOf (workerConfig (sup p)) ->
  Start n p = p.
Proof.
  intros Hs Hsig. unfold Start. rewrite Hs, <- Hsig. now destruct p.
Qed.

Lemma step_poolInv (l : Label) (p p' : Process (W := W)) :
  poolInv p -> step urlSyntax l p = Some p' -> poolInv p'.
Proof.
  intros (Hfresh & Hwg & Hsig & Hret & Hpanic) Hstep.
  destruct l as [n| | |i]; cbn in Hstep.
  - injection Hstep as <-.
    destruct (startOnce (sup p)) eqn:Hso.
    + rewrite (Start_again n p Hso (Hsig eq_refl)). unfold poolInv.
      rewrite Hso. split; [discriminate|]. split; [exact Hwg|].
      split; [exact Hsig|]. split; assumption.
    + destruct (Hfresh eq_refl) as [Hnil H0].
      unfold poolInv, Start, wgAdd. rewrite Hso, H0, Hnil, Z.add_0_l. cbn [app].
      destruct (Z.ltb_spec n 0);
        cbn [wg sup workers trace startOnce signature workerConfig shutdown].
      * split; [discriminate|]. split; [right; split; [lia | reflexivity]|].
        split; [reflexivity|]. split; [intros []|]. intros; lia.
      * split; [discriminate|].
        split; [left; rewrite live_repeat_entry; lia|].
        split; [reflexivity|]. split.
        { intros Hin. apply repeat_spec in Hin. discriminate Hin. }
        intros msg Hin. apply Hpanic in Hin. lia.
  - injection Hstep as <-. unfold poolInv, Shutdown.
    cbn [wg sup workers trace startOnce signature workerConfig shutdown].
    split; [exact Hfresh|]. split; [exact Hwg|]. split; [exact Hsig|].
    split; [reflexivity | exact Hpanic].
  - destruct (WaitReturns p); [|discriminate]. injection Hstep as <-.
    split; [exact Hfresh|]. split; [exact Hwg|]. split; [exact Hsig|].
    split; assumption.
  - apply goroutineStep_inv in Hstep
      as (pc & pc' & tr & Hi & Hne & Hws & Hs' & Hw' & Hc' & Hso' & Hsh'
          & Hwg' & Htr').
    assert (workers p <> []) as Hnn by (intros Hnil; now rewrite Hnil in Hi).
    assert (startOnce (sup p) = true) as Hso.
    { destruct (startOnce (sup p)); [reflexivity|].
      now destruct (Hfresh eq_refl). }
    assert (wg (sup p) = Z.of_nat (live (workers p))) as Hlive
      by (destruct Hwg as [?|[_ ?]]; [assumption | contradiction]).
    assert (isReturned pc = false) as Hpc by (destruct pc; cbn; congruence).
    destruct (live_insert (workers p) i pc pc' Hi Hpc) as [Hge Hl'].
    unfold poolInv. rewrite Hs', Hw', Hc', Hso', Hsh', Hwg', Htr', Hl', Hso.
    split; [discriminate|]. split; [|split; [|split]].
    + left. destruct (isReturned pc'); lia.
    + intros _. now apply Hsig.
    + intros Hin. apply In_insert in Hin as [Heq|Hin]; [|now apply Hret].
      pose proof (workerStep_returned urlSyntax (sup p) (signature p) pc
                    (world p)) as Hr.
      rewrite Hws in Hr. cbn [fst] in Hr.
      destruct (Hr (eq_sym Heq)) as [?|[_ ?]]; [contradiction | assumption].
    + intros msg Hin. exfalso.
      apply in_app_or in Hin as [Hin|Hin]; [apply Hpanic in Hin; lia|].
      apply in_app_or in Hin as [Hin|Hin].
      * eapply (workerStep_no_panic urlSyntax (sup p) (signature p) pc (world p)).
        rewrite Hws. exact Hin.
      * destruct (Z.ltb_spec (wg (sup p) - 1) 0); [lia|].
        rewrite andb_false_r in Hin. destruct Hin.
Qed.

Lemma exec_poolInv (ls : list Label) (p p' : Process (W := W)) :
  poolInv p -> exec urlSyntax ls p = Some p' -> poolInv p'.
Proof.
  revert p. induction ls as [|l ls IH]; intros p Hinv; cbn.
  - now intros [= <-].
  - destruct (step urlSyntax l p) as [p1|] eqn:Hstep; [|discriminate].
    apply IH. eapply step_poolInv; eassumption.
Qed.

Lemma initial_poolInv (c : WorkerConfig) (w : W) : poolInv (initial c w).
Proof.
  split; [now split|]. split; [now left|]. split; [discriminate|].
  split; intros; contradiction.
Qed.

Lemma reachable_poolInv (c : WorkerConfig) (w : W) (ls : list Label)
      (p : Process (W := W)) :
  exec urlSyntax ls (initial c w) = Some p -> poolInv p.
Proof. apply exec_poolInv, initial_poolInv. Qed.

(** After [Shutdown] a process whose workers are all at the entry, at
    the top of the loop or gone stays so, and makes no call. *)
Lemma step_quiet (l : Label) (p p' : Process (W := W)) :
  quiet p -> step urlSyntax l p = Some p' ->
  quiet p' /\ calls (trace p') = calls (trace p).
Proof.
  intros [Hflag Hws] Hstep. destruct l as [n| | |i]; cbn in Hstep.
  - injection Hstep as <-.
    destruct (Start_fields n p) as (_ & _ & Hsh & _ & _ & Hcalls & _).
    split; [|exact Hcalls]. split; [now rewrite Hsh|].
    rewrite Start_workers. destruct (_ || _); [exact Hws|].
    apply Forall_app. split; [exact Hws|].
    apply Forall_forall. intros pc Hin. left. 
    apply list_elem_of_In in Hin. now apply repeat_spec in Hin.
  - injection Hstep as <-. now split.
  - destruct (WaitReturns p); [|discriminate]. injection Hstep as <-.
    now split.
  - apply goroutineStep_inv in Hstep
      as (pc & pc' & tr & Hi & Hne & Hstep & _ & Hw' & _ & _ & Hsh' & _ & Htr').
    assert (pc = pcEntry \/ pc = pcLoop) as Hpc.
    { rewrite Forall_forall in Hws.
      destruct (Hws pc) as [?|[?|?]]; auto.
      - apply list_elem_of_lookup. now exists i.
      - contradiction. }
    destruct (workerStep_quiet urlSyntax (sup p) (signature p) pc (world p)
                Hflag Hpc) as (pc1 & tr1 & Heq & Hpc1 & Hcalls).
    rewrite Hstep in Heq. injection Heq as -> _ ->.
    split; [split|].
    + now rewrite Hsh'.
    + rewrite Hw'. apply Forall_insert; [exact Hws|].
      destruct Hpc1 as [->| ->]; auto.
    + rewrite Htr', !calls_app, Hcalls. destruct (_ && _); cbn;
        now rewrite app_nil_r.
Qed.

Lemma exec_quiet (ls : list Label) (p p' : Process (W := W)) :
  quiet p -> exec urlSyntax ls p = Some p' ->
  quiet p' /\ calls (trace p') = calls (trace p).
Proof.
  revert p. induction ls as [|l ls IH]; intros p Hq; cbn.
  - intros [= <-]. now split.
  - destruct (step urlSyntax l p) as [p1|] eqn:Hstep; [|discriminate].
    intros Hex. destruct (step_quiet l p p1 Hq Hstep) as [Hq1 Hc1].
    destruct (IH p1 Hq1 Hex) as [Hq' Hc']. split; [exact Hq'|].
    now rewrite Hc', Hc1.
Qed.

(** The flag, once set, stays set. *)
Lemma step_flag (l : Label) (p p' : Process (W := W)) :
  shutdown (sup p) = true -> step urlSyntax l p = Some p' ->
  shutdown (sup p') = true.
Proof.
  intros Hflag Hstep. destruct l as [n| | |i]; cbn in Hstep.
  - injection Hstep as <-.
    destruct (Start_fields n p) as (_ & _ & -> & _). exact Hflag.
  - now injection Hstep as <-.
  - destruct (WaitReturns p); [|discriminate]. now injection Hstep as <-.
  - apply goroutineStep_inv in Hstep
      as (pc & pc' & tr & _ & _ & _ & _ & _ & _ & _ & -> & _). exact Hflag.
Qed.

Lemma exec_flag (ls : list Label) (p p' : Process (W := W)) :
  shutdown (sup p) = true -> exec urlSyntax ls p = Some p' ->
  shutdown (sup p') = true.
Proof.
  revert p. induction ls as [|l ls IH]; intros p Hflag; cbn.
  - now intros [= <-].
  - destruct (step urlSyntax l p) as [p1|] eqn:Hstep; [|discriminate].
    apply IH. eapply step_flag; eassumption.
Qed.

End Process.

(** ** The MAC header of the requests of a process *)
Section MacHeader.
Import supervisor notions.
Context {W : Type} `{!SQSAPI W} `{!httpClient W}.
Variable urlSyntax : string -> bool.

Lemma requests_good (c : WorkerConfig) (w : W) (ls : list Label)
      (p : Process (W := W)) (req : http.Request)
      (res : http.Response + error) :
  exec urlSyntax ls (initial c w) = Some p ->
  In (EvDo req res) (trace p) -> goodRequest c req.
Proof.
  intros Hex Hin.
  destruct (exec_signatureInv urlSyntax c ls _ _ (initial_signatureInv c w) Hex)
    as (_ & _ & H).
  eapply H, Hin.
Qed.

Lemma key_nonempty (key : list byte) :
  (0 <? length key)%nat = negb (bool_decide (key = [])).
Proof. now destruct key. Qed.


(** C6: a process whose secret key is empty sends no request with a
    MAC header (its requests have no header field but Content-Type);
    a process whose key is not empty sends every request with one. *)
Theorem mac_header_iff_key (c : WorkerConfig) (w : W) (ls : list Label)
        (p : Process (W := W)) (req : http.Request)
        (res : http.Response + error) :
  exec urlSyntax ls (initial c w) = Some p ->
  In (EvDo req res) (trace p) ->
  (SecretKey c = [] ->
   macHeader req = None
   /\ forall k, http.Hdr req !! k <> None -> k = "Content-Type"%string)
  /\ (SecretKey c <> [] -> exists tag, macHeader req = Some [tag]).
Proof.
  intros Hex Hin.
  destruct (requests_good c w ls p req res Hex Hin) as (_ & _ & Hmac & Hkeys).
  rewrite key_nonempty in Hmac. split; intros Hkey.
  - rewrite bool_decide_eq_true_2 in Hmac by exact Hkey. cbn [negb] in Hmac.
    split; [exact Hmac|]. intros k Hk.
    destruct (Hkeys k Hk) as [-> | ->]; [|reflexivity].
    unfold macHeader in Hmac. now elim Hk.
  - rewrite bool_decide_eq_false_2 in Hmac by exact Hkey. cbn [negb] in Hmac.
    eexists. exact Hmac.
Qed.

(** C9: the signature does not see trailing slashes of the target
    URL: [Start] stores the same canonical prefix for a URL and for
    the URL followed by any number of '/', so the tags of [getMac],
    and those of the signer, agree for every body and key. *)
Theorem mac_ignores_trailing_slashes (c : WorkerConfig) (n : nat)
        (body : string) (k m : Z) (w1 w2 : W) :
  let url' := HTTPURL c +:+ gostrings.Repeat "/" n in
  let p1 := Start k (initial c w1) in
  let p2 := Start m (initial (withURL c url') w2) in
  signature p1 = signature p2
  /\ getMac (signature p1 +:+ body) (SecretKey c)
     = getMac (signature p2 +:+ body) (SecretKey c)
  /\ sign (HTTPURL c) body (SecretKey c) = sign url' body (SecretKey c).
Proof.
  intros url' p1 p2.
  assert (gostrings.TrimRight url' "/" = gostrings.TrimRight (HTTPURL c) "/")
    as Htrim by (apply TrimRight_Repeat; reflexivity).
  assert (signature p1 = signature p2) as Hsig.
  { unfold p1, p2.
    destruct (Start_fields k (initial c w1)) as [-> _].
    destruct (Start_fields m (initial (withURL c url') w2)) as [-> _].
    cbn [initial sup NewSupervisor workerConfig].
    unfold signatureOf, withURL. cbn [HTTPURL]. now rewrite Htrim. }
  split; [exact Hsig|]. split; [now rewrite Hsig|].
  unfold sign, canonicalString. now rewrite Htrim.
Qed.

End MacHeader.

Example sign_scenario :
  notions.sign "https://example.com/hook/" "payload" (bytes_of_string "s3cr3t")
  = "3a594549a081bc73160201683d8a596b28a0f96d9485071a13af6a01f1164fc7"%string
  /\ notions.canonicalString "https://example.com/hook/" "payload"
     = ("POST https://example.com/hook" +:+ newline +:+ "payload")%string.
Proof. split; vm_compute; reflexivity. Qed.

(** ** One poll cycle *)
Section Cycle.
Import supervisor notions.
Context {W : Type} `{!SQSAPI W} `{!httpClient W}.
Variable urlSyntax : string -> bool.

Lemma deliveries_cons (s : Supervisor) (sig : string) (msg : sqs.Message)
      (rest : list sqs.Message) (w : W) :
  deliveries urlSyntax s sig (msg :: rest) w =
  let '(err, w1, t1) := httpRequest urlSyntax s sig (sqs.Body msg) w in
  let '(outs, w2, t2) := deliveries urlSyntax s sig rest w1 in
  ((msg, err) :: outs, w2, t1 ++ failureLog err ++ t2).
Proof.
  cbn [deliveries]. rewrite bind_run.
  destruct (httpRequest _ _ _ _ w) as [[[e|] w1] t1];
    rewrite bind_run; unfold Errorf, emit, mret, M_ret; cbn beta iota;
    rewrite bind_run;
    destruct (deliveries _ _ _ _ w1) as [[outs w2] t2]; cbn;
    now rewrite app_nil_r.
Qed.

Lemma dispatch_cons (s : Supervisor) (sig : string) (msg : sqs.Message)
      (rest : list sqs.Message)
      (es : list sqs.DeleteMessageBatchRequestEntry) (w : W) :
  dispatch urlSyntax s sig (msg :: rest) es w =
  let '(err, w1, t1) := httpRequest urlSyntax s sig (sqs.Body msg) w in
  let es' := match err with
             | Some _ => es
             | None => es ++ [deleteEntry msg]
             end in
  let '(r, w2, t2) := dispatch urlSyntax s sig rest es' w1 in
  (r, w2, t1 ++ failureLog err ++ t2).
Proof.
  cbn [dispatch]. rewrite bind_run.
  destruct (httpRequest _ _ _ _ w) as [[[e|] w1] t1]; cbn zeta.
  - rewrite bind_run. unfold Errorf, emit.
    destruct (dispatch _ _ _ _ _ w1) as [[r w2] t2]. reflexivity.
  - destruct (dispatch _ _ _ _ _ w1) as [[r w2] t2]. reflexivity.
Qed.

(** The range loop appends to [deleteEntries] the entries of the
    attempts that succeeded, and does what the attempts do. *)
Lemma dispatch_deliveries (s : Supervisor) (sig : string)
      (msgs : list sqs.Message)
      (es : list sqs.DeleteMessageBatchRequestEntry) (w : W) :
  dispatch urlSyntax s sig msgs es w =
  let '(outs, w', tr) := deliveries urlSyntax s sig msgs w in
  (es ++ delivered outs, w', tr).
Proof.
  revert es w. induction msgs as [|msg rest IH]; intros es w.
  - cbn. now rewrite app_nil_r.
  - rewrite dispatch_cons, deliveries_cons.
    destruct (httpRequest _ _ _ _ w) as [[[e|] w1] t1]; cbn zeta;
      rewrite IH; destruct (deliveries _ _ _ _ w1) as [[outs w2] t2];
      cbn [delivered]; [reflexivity|].
    now rewrite <- app_assoc.
Qed.





(** The end of the loop body: nothing for an empty list, else one
    delete call with the list, and a log line if the call fails. *)
Lemma acknowledge_run (s : Supervisor)
      (es : list sqs.DeleteMessageBatchRequestEntry) (w : W) :
  acknowledge s es w =
  match es with
  | [] => (Continue, w, [])
  | _ :: _ =>
      let '(r, w1) := DeleteMessageBatch (delInput s es) w in
      (Continue, w1,
       EvDelete (delInput s es) r ::
       match r with
       | Some e =>
           [EvLog ErrorLevel ("Error while deleting messages from SQS: " +:+ e)]
       | None => []
       end)
  end.
Proof.
  destruct es as [|e0 es]; [reflexivity|].
  unfold acknowledge. cbn [length Nat.eqb]. rewrite bind_run.
  unfold sqsDeleteMessageBatch.
  destruct (DeleteMessageBatch _ w) as [[e|] w1]; reflexivity.
Qed.

Lemma cycle_run (s : Supervisor) (sig : string) (w : W) :
  cycle urlSyntax s sig w =
  let '(r, w1) := ReceiveMessage (recInput s) w in
  match r with
  | inr e =>
      (Continue, w1,
       [EvReceive (recInput s) r;
        EvLog ErrorLevel
          ("Error while receiving messages from the queue: " +:+ e)])
  | inl out =>
      match sqs.Messages out with
      | [] => (Continue, w1, [EvReceive (recInput s) r])
      | _ :: _ =>
          let '(outs, w2, trD) :=
            deliveries urlSyntax s sig (sqs.Messages out) w1 in
          let '(ctl, w3, trA) := acknowledge s (delivered outs) w2 in
          (ctl, w3, EvReceive (recInput s) r :: trD ++ trA)
      end
  end.
Proof.
  unfold cycle. rewrite bind_run. unfold sqsReceiveMessage.
  destruct (ReceiveMessage _ w) as [[out|e] w1]; [|reflexivity].
  destruct (sqs.Messages out) as [|m ms] eqn:Hm; [reflexivity|].
  cbn [length Nat.eqb]. rewrite bind_run, dispatch_deliveries.
  destruct (deliveries _ _ _ _ w1) as [[outs w2] trD]. cbn [app].
  destruct (acknowledge s (delivered outs) w2) as [[ctl w3] trA].
  reflexivity.
Qed.

(** The body of the loop leaves it only by the shutdown flag. *)
Lemma cycle_Continue (s : Supervisor) (sig : string) (w : W) :
  (cycle urlSyntax s sig w).1.1 = Continue.
Proof.
  rewrite cycle_run. destruct (ReceiveMessage _ w) as [[out|e] w1]; [|reflexivity].
  destruct (sqs.Messages out); [reflexivity|].
  destruct (deliveries _ _ _ _ w1) as [[outs w2] trD].
  rewrite acknowledge_run. destruct (delivered outs); [reflexivity|].
  destruct (DeleteMessageBatch _ w2). reflexivity.
Qed.



(** C7: when the receive call returns no message, the iteration makes
    no dispatch (no request is sent) and no delete call, and control
    goes back to the top of the loop, where the flag is read. *)
Theorem empty_receive_restarts (s : Supervisor) (sig : string)
        (w w1 : W) (out : sqs.ReceiveMessageOutput) :
  ReceiveMessage (recInput s) w = (inl out, w1) ->
  sqs.Messages out = [] ->
  cycle urlSyntax s sig w
  = (Continue, w1, [EvReceive (recInput s) (inl out)])
  /\ (shutdown s = false ->
      iteration urlSyntax s sig w
      = (Continue, w1, [EvReceive (recInput s) (inl out)]))
  /\ workerStep urlSyntax s sig pcReceive w
     = (pcLoop, w1, [EvReceive (recInput s) (inl out)])
  /\ List.filter isDo (cycle urlSyntax s sig w).2 = []
  /\ List.filter isDelete (cycle urlSyntax s sig w).2 = [].
Proof.
  intros Hrec Hm.
  assert (cycle urlSyntax s sig w
          = (Continue, w1, [EvReceive (recInput s) (inl out)])) as Hc.
  { rewrite cycle_run, Hrec, Hm. reflexivity. }
  split; [exact Hc|]. split; [|split].
  - intros Hs. unfold iteration. now rewrite Hs.
  - unfold workerStep. rewrite bind_run. unfold sqsReceiveMessage.
    rewrite Hrec, Hm. reflexivity.
  - rewrite Hc. split; reflexivity.
Qed.

End Cycle.


(** ** The steps of a worker and the poll cycle *)
Section Steps.
Import supervisor notions.
Context {W : Type} `{!SQSAPI W} `{!httpClient W}.
Variable urlSyntax : string -> bool.

(** The poll cycle does not read the flag. *)
Lemma dispatch_flag (s : Supervisor) (sig : string) (b : bool)
      (msgs : list sqs.Message)
      (es : list sqs.DeleteMessageBatchRequestEntry) (w : W) :
  dispatch urlSyntax (withShutdown s b) sig msgs es w
  = dispatch urlSyntax s sig msgs es w.
Proof.
  revert es w. induction msgs as [|msg rest IH]; intros es w; [reflexivity|].
  rewrite !dispatch_cons.
  change (httpRequest urlSyntax (withShutdown s b) sig (sqs.Body msg) w)
    with (httpRequest urlSyntax s sig (sqs.Body msg) w).
  destruct (httpRequest _ _ _ _ w) as [[err w1] t1]. cbn zeta.
  now rewrite IH.
Qed.

Lemma cycle_flag (s : Supervisor) (sig : string) (b : bool) (w : W) :
  cycle urlSyntax (withShutdown s b) sig w = cycle urlSyntax s sig w.
Proof.
  unfold cycle. rewrite !bind_run.
  change (recInput (withShutdown s b)) with (recInput s).
  destruct (sqsReceiveMessage (recInput s) w) as [[[out|e] w1] t1];
    [|reflexivity].
  destruct (length (sqs.Messages out) =? 0)%nat; [reflexivity|].
  rewrite !bind_run, dispatch_flag.
  destruct (dispatch _ _ _ _ _ w1) as [[es w2] t2]. reflexivity.
Qed.

(** The steps of the worker from the receive call to the top of the
    loop do what [cycle] does. *)
Lemma workerSteps_dispatch (s : Supervisor) (sig : string)
      (msgs : list sqs.Message)
      (es : list sqs.DeleteMessageBatchRequestEntry) (w : W) :
  workerSteps urlSyntax (S (length msgs)) s sig (pcDispatch msgs es) w =
  let '(es', w1, t1) := dispatch urlSyntax s sig msgs es w in
  let '(_, w2, t2) := acknowledge s es' w1 in
  (pcLoop, w2, t1 ++ t2).
Proof.
  revert es w. induction msgs as [|msg rest IH]; intros es w.
  - cbn [length workerSteps workerStep dispatch]. rewrite !bind_run.
    unfold mret, M_ret.
    destruct (acknowledge s es w) as [[ctl w2] t2]. cbn.
    now rewrite !app_nil_r.
  - change (workerSteps urlSyntax (S (length (msg :: rest))) s sig
              (pcDispatch (msg :: rest) es) w)
      with ((workerStep urlSyntax s sig (pcDispatch (msg :: rest) es)
             ≫= workerSteps urlSyntax (S (length rest)) s sig) w).
    rewrite bind_run, dispatch_cons. cbn [workerStep]. rewrite bind_run.
    destruct (httpRequest _ _ _ _ w) as [[[e|] w1] t1]; cbn zeta.
    + rewrite bind_run. unfold Errorf, emit, mret, M_ret. cbn beta iota.
      rewrite IH.
      destruct (dispatch _ _ _ _ _ w1) as [[es' w2] t2].
      destruct (acknowledge s es' w2) as [[ctl w3] t3]. cbn.
      now rewrite <- !app_assoc.
    + unfold mret, M_ret. rewrite IH.
      destruct (dispatch _ _ _ _ _ w1) as [[es' w2] t2].
      destruct (acknowledge s es' w2) as [[ctl w3] t3]. cbn.
      now rewrite app_nil_r, <- !app_assoc.
Qed.

Lemma workerSteps_cycle (s : Supervisor) (sig : string) (w : W) (b : bool) :
  exists n,
    workerSteps urlSyntax n (withShutdown s b) sig pcReceive w
    = (pcLoop, (cycle urlSyntax s sig w).1.2, (cycle urlSyntax s sig w).2).
Proof.
  rewrite <- (cycle_flag s sig b w).
  generalize (withShutdown s b). clear s. intros s.
  unfold cycle. rewrite bind_run. unfold sqsReceiveMessage.
  destruct (ReceiveMessage (recInput s) w) as [[out|e] w1] eqn:Hrec.
  - destruct (sqs.Messages out) as [|m ms] eqn:Hm.
    + exists 1%nat. cbn [workerSteps workerStep]. rewrite !bind_run.
      unfold sqsReceiveMessage. rewrite Hrec, Hm. reflexivity.
    + exists (S (S (length (m :: ms)))).
      change (workerSteps urlSyntax (S (S (length (m :: ms)))) s sig pcReceive w)
        with ((workerStep urlSyntax s sig pcReceive
               ≫= workerSteps urlSyntax (S (length (m :: ms))) s sig) w).
      rewrite bind_run. cbn [workerStep]. rewrite bind_run.
      unfold sqsReceiveMessage. rewrite Hrec, Hm.
      change (length (m :: ms) =? 0)%nat with false. cbn iota.
      unfold mret at 1, M_ret at 1.
      rewrite workerSteps_dispatch, bind_run.
      destruct (dispatch _ _ _ _ _ w1) as [[es' w2] t2].
      destruct (acknowledge s es' w2) as [[ctl w3] t3]. reflexivity.
  - exists 1%nat. cbn [workerSteps workerStep]. rewrite !bind_run.
    unfold sqsReceiveMessage. rewrite Hrec. reflexivity.
Qed.

End Steps.

(** ** The life of the pool *)
Section Pool.
Import supervisor notions.
Context {W : Type} `{!SQSAPI W} `{!httpClient W}.
Variable urlSyntax : string -> bool.

Lemma step_started (l : Label) (p p' : Process (W := W)) :
  startOnce (sup p) = true -> step urlSyntax l p = Some p' ->
  startOnce (sup p') = true /\ length (workers p') = length (workers p).
Proof.
  intros Hso Hstep. destruct l as [n| | |i]; cbn in Hstep.
  - injection Hstep as <-.
    destruct (Start_fields n p) as (_ & _ & _ & -> & _).
    rewrite Start_workers, Hso. now split.
  - injection Hstep as <-. now split.
  - destruct (WaitReturns p); [|discriminate]. injection Hstep as <-.
    now split.
  - apply goroutineStep_inv in Hstep
      as (pc & pc' & tr & _ & _ & _ & _ & -> & _ & -> & _).
    split; [exact Hso | apply length_insert].
Qed.

Lemma exec_started (ls : list Label) (p p' : Process (W := W)) :
  startOnce (sup p) = true -> exec urlSyntax ls p = Some p' ->
  startOnce (sup p') = true /\ length (workers p') = length (workers p).
Proof.
  revert p. induction ls as [|l ls IH]; intros p Hso; cbn.
  - intros [= <-]. now split.
  - destruct (step urlSyntax l p) as [p1|] eqn:Hstep; [|discriminate].
    intros Hex. destruct (step_started l p p1 Hso Hstep) as [Hso1 Hlen1].
    destruct (IH p1 Hso1 Hex) as [Hso' Hlen']. split; [exact Hso'|].
    now rewrite Hlen', Hlen1.
Qed.

(** The workers of a process are those of the first [Start] of its
    run. *)
Lemma exec_fresh (ls : list Label) (p p' : Process (W := W)) :
  poolInv p -> startOnce (sup p) = false ->
  exec urlSyntax ls p = Some p' ->
  match firstStart ls with
  | Some n =>
      startOnce (sup p') = true /\ length (workers p') = Z.to_nat n
  | None => workers p' = []
  end.
Proof.
  revert p. induction ls as [|l ls IH]; intros p Hinv Hso; cbn [exec].
  - intros [= <-]. now apply Hinv.
  - destruct (step urlSyntax l p) as [p1|] eqn:Hstep; [|discriminate].
    intros Hex. pose proof (step_poolInv urlSyntax l p p1 Hinv Hstep) as Hinv1.
    destruct Hinv as (Hfresh & _). destruct (Hfresh Hso) as [Hnil H0].
    destruct l as [n| | |i]; cbn [firstStart]; cbn in Hstep.
    + injection Hstep as <-.
      destruct (Start_fields n p) as (_ & _ & _ & Hso1 & _).
      destruct (exec_started ls _ _ Hso1 Hex) as [Hso' Hlen'].
      split; [exact Hso'|]. rewrite Hlen', Start_workers, Hso, Hnil, H0.
      cbn [orb app]. rewrite Z.add_0_l.
      destruct (Z.ltb_spec n 0); [cbn; lia | apply repeat_length].
    + injection Hstep as <-. eapply IH; [exact Hinv1 | exact Hso | exact Hex].
    + destruct (WaitReturns p); [|discriminate]. injection Hstep as <-.
      eapply IH; [exact Hinv1 | exact Hso | exact Hex].
    + unfold goroutineStep in Hstep. now rewrite Hnil in Hstep.
Qed.

Lemma exec_starts (ns : list Z) (p : Process (W := W)) :
  exists p', exec urlSyntax (map CallStart ns) p = Some p'.
Proof.
  revert p. induction ns as [|n ns IH]; intros p; cbn; [now eexists|].
  apply IH.
Qed.

(** C4, amended: for a first count [0 <= n1 < 2^31] (the counts the
    32-bit counter of the wait group can hold), whatever the calls
    [Start(n1)], [Start(n2)], ... and whatever else happens in the run,
    the goroutines of the process are the [n1] workers the first call
    spawned, and any further call of [Start] leaves the process as it
    is, whatever its argument. *)
Theorem start_only_once (c : WorkerConfig) (w : W) (n1 : Z) (ns : list Z)
        (ls : list Label) (p : Process (W := W)) :
  0 <= n1 < 2 ^ 31 ->
  firstStartSpawnsItsCount urlSyntax c w n1 ns
  /\ (exec urlSyntax ls (initial c w) = Some p ->
      firstStart ls = Some n1 ->
      Z.of_nat (length (workers p)) = n1
      /\ forall n, Start n p = p).
Proof.
  intros Hn1. split.
  - unfold firstStartSpawnsItsCount, spawnedBy.
    destruct (exec_starts (n1 :: ns) (initial c w)) as [p' Hex]. rewrite Hex.
    pose proof (exec_fresh _ _ _ (initial_poolInv c w) eq_refl Hex) as H.
    cbn [map firstStart] in H. destruct H as [_ ->]. f_equal. lia.
  - intros Hex Hfirst.
    pose proof (exec_fresh _ _ _ (initial_poolInv c w) eq_refl Hex) as H.
    rewrite Hfirst in H. destruct H as [Hso Hlen].
    split; [lia|]. intros n.
    destruct (reachable_poolInv urlSyntax c w ls p Hex) as (_ & _ & Hsig & _).
    apply Start_again; auto.
Qed.

(** C5: the flag is read at the top of the loop only: a step from any
    other point is the same with the flag set or not, a worker
    returns only from the top of the loop with the flag set, and from
    the receive call it runs through its whole poll cycle whatever
    the flag.  After [Shutdown()] and a [Wait()] that returned, all
    workers spawned so far have returned, the flag stays set, and no
    receive, delete or HTTP call is made from then on. *)
Theorem shutdown_is_cooperative :
  (forall s sig pc b,
      pc <> pcLoop ->
      workerStep urlSyntax (withShutdown s b) sig pc
      = workerStep urlSyntax s sig pc)
  /\ (forall s sig pc (w : W),
        pc <> pcReturned ->
        (workerStep urlSyntax s sig pc w).1.1 = pcReturned ->
        pc = pcLoop /\ shutdown s = true)
  /\ (forall s sig (w : W) b,
        exists n,
          workerSteps urlSyntax n (withShutdown s b) sig pcReceive w
          = (pcLoop, (cycle urlSyntax s sig w).1.2,
             (cycle urlSyntax s sig w).2))
  /\ (forall c (w : W) ls1 ls2 ls3 p2 p3,
        exec urlSyntax (ls1 ++ CallShutdown :: ls2 ++ [WaitReturn])
             (initial c w) = Some p2 ->
        exec urlSyntax ls3 p2 = Some p3 ->
        Forall (fun pc => pc = pcReturned) (workers p2)
        /\ shutdown (sup p3) = true
        /\ calls (trace p3) = calls (trace p2)).
Proof.
  split; [|split; [|split]].
  - intros s sig pc b. apply workerStep_flag.
  - intros s sig pc w Hne Hret.
    destruct (workerStep_returned urlSyntax s sig pc w Hret) as [?|?];
      [contradiction | assumption].
  - intros s sig w b. apply workerSteps_cycle.
  - intros c w ls1 ls2 ls3 p2 p3 Hex Hex3.
    pose proof (reachable_poolInv urlSyntax c w _ p2 Hex) as (_ & Hwg & _).
    rewrite exec_app in Hex.
    destruct (exec urlSyntax ls1 (initial c w)) as [pa|]; [|discriminate].
    cbn [exec step] in Hex. rewrite exec_app in Hex.
    destruct (exec urlSyntax ls2 (Shutdown pa)) as [pb|] eqn:Hex2;
      [|discriminate].
    cbn [exec step] in Hex. unfold WaitReturns in Hex.
    destruct (Z.eqb_spec (wg (sup pb)) 0) as [H0|]; [|discriminate].
    injection Hex as ->.
    assert (shutdown (sup p2) = true) as Hflag
      by (eapply exec_flag; [|exact Hex2]; reflexivity).
    assert (Forall (fun pc => pc = pcReturned) (workers p2)) as Hall.
    { apply live_zero. destruct Hwg as [Hl|[? _]]; lia. }
    assert (quiet p2) as Hq.
    { split; [exact Hflag|]. eapply Forall_impl; [exact Hall|]. cbn. auto. }
    destruct (exec_quiet urlSyntax ls3 p2 p3 Hq Hex3) as [[Hflag3 _] Hcalls].
    now repeat split.
Qed.

(** C8: a receive error is logged and the loop goes back to the flag
    check at once, with no request and no delete call; a delete error
    is logged after the one delete call, which is not retried, and the
    loop goes on; the loop body never ends the loop unless the flag is
    set, a worker returns only from the flag check with the flag set,
    a worker that has returned implies a set flag, and no worker
    panics. *)
Theorem worker_survives_errors :
  (forall s sig (w w1 : W) e,
      ReceiveMessage (recInput s) w = (inr e, w1) ->
      let tr := [EvReceive (recInput s) (inr e);
                 EvLog ErrorLevel
                   ("Error while receiving messages from the queue: " +:+ e)] in
      iteration urlSyntax (withShutdown s false) sig w = (Continue, w1, tr)
      /\ workerStep urlSyntax s sig pcReceive w = (pcLoop, w1, tr))
  /\ (forall s sig es (w w1 : W) e,
        es <> [] ->
        DeleteMessageBatch (delInput s es) w = (Some e, w1) ->
        let tr := [EvDelete (delInput s es) (Some e);
                   EvLog ErrorLevel
                     ("Error while deleting messages from SQS: " +:+ e)] in
        acknowledge s es w = (Continue, w1, tr)
        /\ workerStep urlSyntax s sig (pcDispatch [] es) w = (pcLoop, w1, tr))
  /\ (forall s sig (w : W),
        (iteration urlSyntax s sig w).1.1 = Return <-> shutdown s = true)
  /\ (forall s sig pc (w : W),
        pc <> pcReturned ->
        (workerStep urlSyntax s sig pc w).1.1 = pcReturned ->
        pc = pcLoop /\ shutdown s = true)
  /\ (forall c (w : W) ls p,
        exec urlSyntax ls (initial c w) = Some p ->
        (In pcReturned (workers p) -> shutdown (sup p) = true)
        /\ (workers p <> [] -> forall msg, ~ In (EvPanic msg) (trace p))).
Proof.
  split; [|split; [|split; [|split]]].
  - intros s sig w w1 e Hrec tr. split.
    + unfold iteration. cbn [withShutdown shutdown].
      rewrite cycle_flag, cycle_run, Hrec. reflexivity.
    + unfold workerStep. rewrite bind_run. unfold sqsReceiveMessage.
      rewrite Hrec. reflexivity.
  - intros s sig es w w1 e Hne Hdel tr.
    assert (acknowledge s es w = (Continue, w1, tr)) as Hack.
    { rewrite acknowledge_run. destruct es; [contradiction|].
      rewrite Hdel. reflexivity. }
    split; [exact Hack|]. cbn [workerStep]. rewrite bind_run, Hack.
    reflexivity.
  - intros s sig w. unfold iteration. destruct (shutdown s).
    + now split.
    + rewrite cycle_Continue. split; discriminate.
  - intros s sig pc w Hne Hret.
    destruct (workerStep_returned urlSyntax s sig pc w Hret) as [?|?];
      [contradiction | assumption].
  - intros c w ls p Hex.
    destruct (reachable_poolInv urlSyntax c w ls p Hex)
      as (_ & Hwg & _ & Hret & Hpanic).
    split; [exact Hret|]. intros Hnn msg Hin. apply Hpanic in Hin.
    destruct Hwg as [Hl|[_ ?]]; [lia | contradiction].
Qed.

End Pool.

(** C4 as the specification states it does not hold for a negative
    count: [Start(-1)] panics in [wg.Add] and spawns no worker. *)
Lemma start_negative_count :
  ~ notions.firstStartSpawnsItsCount scenario.anyURL
      (scenario.conf "https://example.com/hook/" "") scenario.idle (-1) [3].
Proof. vm_compute. discriminate. Qed.

(** ** Reading integers from the environment *)
Section GetEnvInt.
Import notions simplesqsd.

Lemma digit_code (d : Z) : 0 <= d <= 9 -> Z_of_ascii (digitChar d) - 48 = d.
Proof.
  intros H.
  assert (d = 0 \/ d = 1 \/ d = 2 \/ d = 3 \/ d = 4 \/ d = 5 \/ d = 6
          \/ d = 7 \/ d = 8 \/ d = 9) as Hd by lia.
  repeat (destruct Hd as [->|Hd]; [reflexivity|]). now subst.
Qed.

Lemma code_digit (c : ascii) :
  0 <= Z_of_ascii c - 48 <= 9 -> digitChar (Z_of_ascii c - 48) = c.
Proof.
  unfold digitChar, Z_of_ascii. intros H.
  replace (48 + (Z.of_N (N_of_ascii c) - 48)) with (Z.of_N (N_of_ascii c)) by lia.
  now rewrite N2Z.id, ascii_N_embedding.
Qed.

Lemma digit_not_sign (d : Z) :
  0 <= d <= 9 ->
  Ascii.eqb (digitChar d) "-" = false /\ Ascii.eqb (digitChar d) "+" = false.
Proof.
  intros H.
  assert (d = 0 \/ d = 1 \/ d = 2 \/ d = 3 \/ d = 4 \/ d = 5 \/ d = 6
          \/ d = 7 \/ d = 8 \/ d = 9) as Hd by lia.
  repeat (destruct Hd as [->|Hd]; [split; reflexivity|]). subst. now split.
Qed.

Lemma digits_snoc (s : string) (c : ascii) (n : Z) :
  strconv.digits (s +:+ String c EmptyString) n =
  match strconv.digits s n with
  | Some v =>
      if (0 <=? Z_of_ascii c - 48) && (Z_of_ascii c - 48 <=? 9)
      then Some (v * 10 + (Z_of_ascii c - 48)) else None
  | None => None
  end.
Proof.
  revert n. induction s as [|a s IH]; intros n.
  - change (EmptyString +:+ String c EmptyString) with (String c EmptyString).
    cbn [strconv.digits]. now destruct (_ && _).
  - rewrite append_cons. cbn [strconv.digits].
    destruct ((0 <=? Z_of_ascii a - 48) && (Z_of_ascii a - 48 <=? 9));
      [apply IH | reflexivity].
Qed.

Lemma Decimal_digits (s : string) (v : Z) :
  Decimal s v -> strconv.digits s 0 = Some v.
Proof.
  induction 1 as [d Hd|s v d _ IH Hd].
  - cbn [strconv.digits]. rewrite (digit_code d Hd).
    destruct (Z.leb_spec 0 d); destruct (Z.leb_spec d 9); try lia.
    reflexivity.
  - rewrite digits_snoc, IH, (digit_code d Hd).
    destruct (Z.leb_spec 0 d); destruct (Z.leb_spec d 9); try lia.
    cbn. f_equal. lia.
Qed.

Lemma Decimal_head (s : string) (v : Z) :
  Decimal s v -> exists d t, s = String (digitChar d) t /\ 0 <= d <= 9.
Proof.
  induction 1 as [d Hd|s v d _ (d0 & t & -> & Hd0) Hd].
  - now exists d, EmptyString.
  - exists d0, (t +:+ String (digitChar d) EmptyString). now split.
Qed.

Lemma string_length_snoc (s : string) (c : ascii) :
  String.length (s +:+ String c EmptyString) = S (String.length s).
Proof.
  induction s as [|a s IH]; [reflexivity|].
  rewrite append_cons. cbn [String.length]. now rewrite IH.
Qed.

Lemma Decimal_cons (d : Z) (s : string) (v : Z) :
  0 <= d <= 9 -> Decimal s v ->
  Decimal (String (digitChar d) s)
          (d * 10 ^ Z.of_nat (String.length s) + v).
Proof.
  intros Hd. induction 1 as [d1 Hd1|s v d1 _ IH Hd1].
  - change (String (digitChar d) (String (digitChar d1) EmptyString))
      with (String (digitChar d) EmptyString +:+ String (digitChar d1) EmptyString).
    cbn [String.length]. replace (d * 10 ^ Z.of_nat 1 + d1) with (10 * d + d1) by lia.
    apply Decimal_more; [now apply Decimal_digit | exact Hd1].
  - rewrite <- append_cons, string_length_snoc, Nat2Z.inj_succ, Z.pow_succ_r by lia.
    replace (d * (10 * 10 ^ Z.of_nat (String.length s)) + (10 * v + d1))
      with (10 * (d * 10 ^ Z.of_nat (String.length s) + v) + d1) by lia.
    apply Decimal_more; assumption.
Qed.

Lemma digits_Decimal (s : string) (n v : Z) :
  s <> EmptyString -> strconv.digits s n = Some v ->
  exists u, Decimal s u /\ v = n * 10 ^ Z.of_nat (String.length s) + u.
Proof.
  revert n v. induction s as [|c t IH]; intros n v Hne; [contradiction|].
  cbn [strconv.digits].
  destruct (Z.leb_spec 0 (Z_of_ascii c - 48)); [|discriminate].
  destruct (Z.leb_spec (Z_of_ascii c - 48) 9); [|discriminate].
  cbn [andb]. rewrite <- (code_digit c) by lia.
  rewrite (digit_code (Z_of_ascii c - 48)) by lia.
  set (d := Z_of_ascii c - 48) in *.
  destruct t as [|c' t'] eqn:Ht.
  - cbn. intros [= <-]. exists d. split; [apply Decimal_digit; lia | lia].
  - rewrite <- Ht in *. intros Hdig.
    destruct (IH (n * 10 + d) v) as (u & Hu & ->); [now subst | exact Hdig |].
    exists (d * 10 ^ Z.of_nat (String.length t) + u).
    split; [apply Decimal_cons; [lia | exact Hu]|].
    cbn [String.length]. rewrite Nat2Z.inj_succ, Z.pow_succ_r by lia. lia.
Qed.




End GetEnvInt.

Example main_passes_odd_values :
  simplesqsd.main scenario.oddEnv None
  = simplesqsd.StartSupervisor
      {| supervisor.QueueURL := "https://sqs.example/q";
         supervisor.QueueMaxMessages := 0;
         supervisor.QueueWaitTime := -5;
         supervisor.SecretKey := [];
         supervisor.HTTPURL := "https://example.com/hook/";
         supervisor.HTTPContentType := "" |} (-1).
Proof. vm_compute. reflexivity. Qed.

(** ** The properties on the scenario *)


Lemma mac_header_iff_key_witness :
  supervisor.SecretKey scenario.unsignedConf = []
  /\ notions.macHeader scenario.unsignedRequest = None.
Proof.
  split; [reflexivity|].
  destruct (supervisor.exec scenario.anyURL scenario.firstDelivery
              (supervisor.initial scenario.unsignedConf scenario.signedWorld))
    as [p|] eqn:E; [|vm_compute in E; discriminate].
  assert (In (supervisor.EvDo scenario.unsignedRequest (inr "connection refused"%string))
             (supervisor.trace p)) as Hin.
  { pose proof E as E'. vm_compute in E'. injection E' as <-.
    vm_compute. right. right. now left. }
  destruct (mac_header_iff_key scenario.anyURL scenario.unsignedConf
              scenario.signedWorld scenario.firstDelivery p
              scenario.unsignedRequest _ E Hin) as [Hnone _].
  now apply Hnone.
Defined.

Lemma empty_receive_witness :
  let s := supervisor.NewSupervisor scenario.unsignedConf in
  supervisor.ReceiveMessage (supervisor.recInput s) scenario.idle
  = (inl (sqs.mkReceiveOutput []), scenario.idle)
  /\ supervisor.workerStep scenario.anyURL s "" supervisor.pcReceive scenario.idle
     = (supervisor.pcLoop, scenario.idle,
        [supervisor.EvReceive (supervisor.recInput s)
           (inl (sqs.mkReceiveOutput []))]).
Proof.
  intros s.
  assert (supervisor.ReceiveMessage (supervisor.recInput s) scenario.idle
          = (inl (sqs.mkReceiveOutput []), scenario.idle)) as Hrec by reflexivity.
  split; [exact Hrec|].
  destruct (empty_receive_restarts scenario.anyURL s "" scenario.idle
              scenario.idle (sqs.mkReceiveOutput []) Hrec eq_refl)
    as (_ & _ & Hstep & _).
  exact Hstep.
Defined.

Lemma start_only_once_witness :
  0 <= 2 < 2 ^ 31
  /\ notions.firstStartSpawnsItsCount scenario.anyURL scenario.unsignedConf
       scenario.idle 2 [5; -3]
  /\ match supervisor.exec scenario.anyURL scenario.twoStarts
             (supervisor.initial scenario.unsignedConf scenario.idle) with
     | Some p =>
         notions.firstStart scenario.twoStarts = Some 2
         /\ Z.of_nat (length (supervisor.workers p)) = 2
         /\ supervisor.Start 9 p = p
     | None => False
     end.
Proof.
  assert (0 <= 2 < 2 ^ 31) as H2 by (split; [lia | reflexivity]).
  split; [exact H2|].
  destruct (supervisor.exec scenario.anyURL scenario.twoStarts
              (supervisor.initial scenario.unsignedConf scenario.idle))
    as [p|] eqn:E.
  - destruct (start_only_once scenario.anyURL scenario.unsignedConf
                scenario.idle 2 [5; -3] scenario.twoStarts p H2) as [Hcount Hrun].
    split; [exact Hcount|].
    destruct (Hrun E eq_refl) as [Hlen Hstart].
    split; [reflexivity|]. split; [exact Hlen | apply Hstart].
  - vm_compute in E. discriminate.
Defined.

Lemma shutdown_witness :
  match supervisor.exec scenario.anyURL scenario.gracefulStop
          (supervisor.initial scenario.unsignedConf scenario.idle) with
  | Some p2 =>
      match supervisor.exec scenario.anyURL
              [supervisor.CallStart 3; supervisor.CallShutdown] p2 with
      | Some p3 =>
          Forall (fun pc => pc = supervisor.pcReturned) (supervisor.workers p2)
          /\ supervisor.calls (supervisor.trace p3)
             = supervisor.calls (supervisor.trace p2)
      | None => False
      end
  | None => False
  end.
Proof.
  destruct (supervisor.exec scenario.anyURL scenario.gracefulStop
              (supervisor.initial scenario.unsignedConf scenario.idle))
    as [p2|] eqn:E2; [|vm_compute in E2; discriminate].
  destruct (supervisor.exec scenario.anyURL
              [supervisor.CallStart 3; supervisor.CallShutdown] p2)
    as [p3|] eqn:E3.
  - destruct (shutdown_is_cooperative (W := scenario.World) scenario.anyURL)
      as (_ & _ & _ & H).
    destruct (H scenario.unsignedConf scenario.idle
                [supervisor.CallStart 1; supervisor.Step 0; supervisor.Step 0]
                [supervisor.Step 0; supervisor.Step 0]
                [supervisor.CallStart 3; supervisor.CallShutdown]
                p2 p3 E2 E3) as (Hall & _ & Hcalls).
    now split.
  - pose proof E2 as E2'. vm_compute in E2'. injection E2' as <-.
    vm_compute in E3. discriminate.
Defined.

Lemma worker_survives_witness :
  let s := supervisor.NewSupervisor scenario.unsignedConf in
  let w := scenario.mkWorld [inr "queue down"%string] [] in
  supervisor.ReceiveMessage (supervisor.recInput s) w
  = (inr "queue down"%string, scenario.idle)
  /\ supervisor.workerStep scenario.anyURL s "" supervisor.pcReceive w
     = (supervisor.pcLoop, scenario.idle,
        [supervisor.EvReceive (supervisor.recInput s) (inr "queue down"%string);
         supervisor.EvLog supervisor.ErrorLevel
           "Error while receiving messages from the queue: queue down"]).
Proof.
  intros s w.
  assert (supervisor.ReceiveMessage (supervisor.recInput s) w
          = (inr "queue down"%string, scenario.idle)) as Hrec by reflexivity.
  split; [exact Hrec|].
  destruct (worker_survives_errors (W := scenario.World) scenario.anyURL)
    as (H & _).
  destruct (H s EmptyString w scenario.idle "queue down"%string Hrec) as [_ Hstep].
  exact Hstep.
Defined.


(** ** What a process sends and deletes *)
Section Ledger.
Import supervisor notions ledger.
Context {W : Type} `{!SQSAPI W} `{!httpClient W}.
Variable urlSyntax : string -> bool.

Lemma receivedIn_app (tr tr' : list Event) (m : sqs.Message) :
  receivedIn tr m -> receivedIn (tr ++ tr') m.
Proof.
  intros (input & out & Hin & Hm). exists input, out.
  split; [apply in_or_app; now left | exact Hm].
Qed.

Lemma acceptedIn_app (tr tr' : list Event) (m : sqs.Message) :
  acceptedIn tr m -> acceptedIn (tr ++ tr') m.
Proof.
  intros (req & res & Hin & Hb). exists req, res.
  split; [apply in_or_app; now left | exact Hb].
Qed.

Lemma settledIn_app (tr tr' : list Event)
      (e : sqs.DeleteMessageBatchRequestEntry) :
  settledIn tr e -> settledIn (tr ++ tr') e.
Proof.
  intros (m & He & Hr & Ha). exists m.
  split; [exact He|]. split; [now apply receivedIn_app | now apply acceptedIn_app].
Qed.

Lemma pending_app (tr tr' : list Event) (pc : PC) :
  pending tr pc -> pending (tr ++ tr') pc.
Proof.
  destruct pc; cbn; auto. intros [Hm He]. split.
  - intros m Hin. now apply receivedIn_app, Hm.
  - intros e Hin. now apply settledIn_app, He.
Qed.

Lemma Ordered_app (c : WorkerConfig) (tr0 tr : list Event) :
  Ordered c tr0 -> OrderedFrom c tr0 tr -> Ordered c (tr0 ++ tr).
Proof.
  revert tr0. induction tr as [|e rest IH]; intros tr0 H0 Hfrom.
  - now rewrite app_nil_r.
  - destruct Hfrom as [He Hrest].
    change (e :: rest) with ([e] ++ rest). rewrite app_assoc.
    apply IH; [now apply Ordered_snoc | exact Hrest].
Qed.

(** An event of an ordered trace is in order after what precedes it. *)
Lemma Ordered_split (c : WorkerConfig) (tr pre post : list Event) (e : Event) :
  Ordered c tr -> tr = pre ++ e :: post -> okAfter c pre e.
Proof.
  intros Hord. revert pre post. induction Hord as [|tr x Hord IH Hx];
    intros pre post Heq.
  - now destruct pre.
  - destruct (exists_last (l := e :: post)) as (post' & y & Hlast);
      [discriminate|].
    rewrite Hlast, app_assoc in Heq. apply app_inj_tail in Heq as [Htr ->].
    destruct post' as [|z post'].
    + rewrite app_nil_r in Htr. cbn in Hlast. injection Hlast as -> _.
      now subst.
    + injection Hlast as <- Hpost. eapply IH.
      rewrite Htr. cbn. reflexivity.
Qed.

Lemma recInput_config (s : Supervisor) :
  recInput s = receiveInput (workerConfig s).
Proof. reflexivity. Qed.

(** A step keeps the trace in order and the worker's list accounted
    for. *)
Lemma workerStep_ordered (s : Supervisor) (sig : string) (pc : PC) (w : W)
      (tr0 : list Event) :
  pending tr0 pc ->
  OrderedFrom (workerConfig s) tr0 (workerStep urlSyntax s sig pc w).2
  /\ pending (tr0 ++ (workerStep urlSyntax s sig pc w).2)
             (workerStep urlSyntax s sig pc w).1.1.
Proof.
  intros Hpend. destruct pc as [| | |[|m rest] es|].
  - unfold workerStep. rewrite bind_run. unfold Info, emit, mret, M_ret.
    cbn. auto.
  - unfold workerStep, mret, M_ret. destruct (shutdown s); cbn; auto.
  - unfold workerStep. rewrite bind_run. unfold sqsReceiveMessage.
    destruct (ReceiveMessage _ w) as [[out|e] w1].
    + unfold mret, M_ret.
      destruct (length (sqs.Messages out) =? 0)%nat; cbn; [auto|].
      split; [auto|]. split; [|intros ? []].
      intros m Hin. exists (recInput s), out. split; [|exact Hin].
      apply in_or_app. right. now left.
    + rewrite bind_run. unfold Errorf, emit, mret, M_ret. cbn. auto.
  - cbn [workerStep]. rewrite bind_run, acknowledge_run.
    destruct es as [|e0 es]; [cbn; auto|].
    destruct (DeleteMessageBatch _ w) as [r w1]. cbn [fst snd].
    unfold mret, M_ret. cbn [app]. rewrite app_nil_r.
    split; [|exact I]. destruct Hpend as [_ Hes].
    assert (okAfter (workerConfig s) tr0
              (EvDelete (delInput s (e0 :: es)) r)) as Hok.
    { cbn. split; [reflexivity|]. split; [discriminate|]. exact Hes. }
    destruct r; cbn; auto.
  - destruct Hpend as [Hmsgs Hes].
    cbn [workerStep]. rewrite bind_run, httpRequest_run.
    destruct (http.NewRequest _ _ _ _) as [req0|e0] eqn:Hnew.
    + apply NewRequest_inl in Hnew as ->. cbn zeta.
      destruct (decorate_fields (workerConfig s) sig (sqs.Body m)
                  (http.mkRequest "POST" (HTTPURL (workerConfig s))
                     (sqs.Body m) ∅)) as (_ & _ & Hb).
      cbn [http.Body] in Hb.
      set (req := decorate _ _ _ _) in *.
      destruct (Do req w) as [res w1].
      assert (okAfter (workerConfig s) tr0 (EvDo req res)) as Hok.
      { exists m. split; [apply Hmsgs; now left | exact Hb]. }
      pose proof (verdict_None res) as Hv.
      destruct (verdict res) as [err|].
      * rewrite bind_run. unfold Errorf, emit, mret, M_ret. cbn [fst snd].
        split.
        { destruct res; cbn; auto. }
        split.
        -- intros m' Hin. apply receivedIn_app, Hmsgs. now right.
        -- intros e Hin. now apply settledIn_app, Hes.
      * unfold mret, M_ret. cbn [fst snd]. rewrite app_nil_r.
        destruct Hv as [Hv _]. destruct (Hv eq_refl) as (r & -> & Hr).
        split; [cbn; auto|]. split.
        -- intros m' Hin. apply receivedIn_app, Hmsgs. now right.
        -- intros e Hin. apply in_app_or in Hin as [Hin|[<-|[]]].
           ++ now apply settledIn_app, Hes.
           ++ exists m. split; [reflexivity|].
              split; [apply receivedIn_app, Hmsgs; now left|].
              exists req, r. split; [|now split].
              apply in_or_app. right. now left.
    + rewrite bind_run. unfold Errorf, emit, mret, M_ret. cbn.
      split; [auto|]. split.
      * intros m' Hin. apply receivedIn_app, Hmsgs. now right.
      * intros e Hin. now apply settledIn_app, Hes.
  - cbn. auto.
Qed.

Lemma step_ledgerInv (c : WorkerConfig) (l : Label) (p p' : Process (W := W)) :
  ledgerInv c p -> step urlSyntax l p = Some p' -> ledgerInv c p'.
Proof.
  intros (Hc & Hord & Hws) Hstep. destruct l as [n| | |i]; cbn in Hstep.
  - injection Hstep as <-. unfold Start, wgAdd.
    destruct (startOnce (sup p)); [now split|].
    destruct (wg (sup p) + n <? 0); cbn [sup workerConfig trace workers].
    + split; [exact Hc|]. split; [now apply Ordered_snoc|].
      eapply Forall_impl; [exact Hws|]. intros pc. apply pending_app.
    + split; [exact Hc|]. split; [exact Hord|].
      apply Forall_app. split; [exact Hws|].
      apply Forall_forall. intros pc Hin. apply list_elem_of_In in Hin.
      apply repeat_spec in Hin. now subst.
  - injection Hstep as <-. now split.
  - destruct (WaitReturns p); [|discriminate]. injection Hstep as <-.
    now split.
  - apply goroutineStep_inv in Hstep
      as (pc & pc' & tr & Hi & _ & Hws' & _ & Hw' & Hc' & _ & _ & _ & Htr').
    assert (pending (trace p) pc) as Hpc.
    { rewrite Forall_forall in Hws. apply Hws, list_elem_of_lookup. now exists i. }
    destruct (workerStep_ordered (sup p) (signature p) pc (world p) (trace p) Hpc)
      as [Hfrom Hpend].
    rewrite Hws' in Hfrom, Hpend. cbn [fst snd] in Hfrom, Hpend.
    rewrite Hc in Hfrom.
    split; [now rewrite Hc'|]. rewrite Htr', Hw', app_assoc. split.
    + apply Ordered_app; [now apply Ordered_app|].
      destruct (_ && _); cbn; auto.
    + apply Forall_insert.
      * eapply Forall_impl; [exact Hws|]. intros pc0 H0.
        rewrite <- app_assoc. now apply pending_app.
      * now apply pending_app.
Qed.

Lemma reachable_ledgerInv (c : WorkerConfig) (w : W) (ls : list Label)
      (p : Process (W := W)) :
  exec urlSyntax ls (initial c w) = Some p -> ledgerInv c p.
Proof.
  assert (forall ls (q q' : Process (W := W)),
             ledgerInv c q -> exec urlSyntax ls q = Some q' -> ledgerInv c q')
    as Hexec.
  { clear. intros ls. induction ls as [|l ls IH]; intros q q' Hinv; cbn.
    - now intros [= <-].
    - destruct (step urlSyntax l q) as [q1|] eqn:Hstep; [|discriminate].
      apply IH. eapply step_ledgerInv; eassumption. }
  apply Hexec. split; [reflexivity|]. split; constructor.
Qed.

End Ledger.

(** ** The requests of a process *)
Section Requests.
Import supervisor notions ledger.
Context {W : Type} `{!SQSAPI W} `{!httpClient W}.
Variable urlSyntax : string -> bool.

Lemma NewRequest_parses (c : WorkerConfig) (body : string) :
  http.NewRequest urlSyntax "POST" (HTTPURL c) body =
  if urlParses urlSyntax c
  then inl (http.mkRequest "POST" (HTTPURL c) body ∅)
  else http.NewRequest urlSyntax "POST" (HTTPURL c) body.
Proof.
  unfold urlParses, http.NewRequest.
  destruct (http.stringContainsCTLByte _); [reflexivity|].
  now destruct (urlSyntax _).
Qed.

Lemma NewRequest_fails (c : WorkerConfig) (body : string) :
  urlParses urlSyntax c = false ->
  exists e, http.NewRequest urlSyntax "POST" (HTTPURL c) body = inr e.
Proof.
  unfold urlParses, http.NewRequest.
  destruct (http.stringContainsCTLByte _); [now eexists|].
  destruct (urlSyntax _); [discriminate | now eexists].
Qed.

(** The requests of one [httpRequest]: none when the URL does not
    parse, else the one request built for the body. *)
Lemma httpRequest_requests (s : Supervisor) (sig body : string) (w : W) :
  requests (httpRequest urlSyntax s sig body w).2 =
  if urlParses urlSyntax (workerConfig s)
  then [requestFor (workerConfig s) sig body] else [].
Proof.
  rewrite httpRequest_run.
  destruct (urlParses urlSyntax (workerConfig s)) eqn:Hp.
  - rewrite NewRequest_parses, Hp. cbn zeta. unfold requestFor.
    destruct (Do _ w) as [[r|e] w']; reflexivity.
  - destruct (NewRequest_fails (workerConfig s) body Hp) as [e ->].
    reflexivity.
Qed.

Lemma requests_app (t1 t2 : list Event) :
  requests (t1 ++ t2) = requests t1 ++ requests t2.
Proof. apply flat_map_app. Qed.

Lemma In_requests (tr : list Event) (req : http.Request) :
  In req (requests tr) <-> exists res, In (EvDo req res) tr.
Proof.
  unfold requests. rewrite in_flat_map. split.
  - intros (e & Hin & He). destruct e; cbn in He; try contradiction.
    destruct He as [->|[]]. eexists. eassumption.
  - intros (res & Hin). exists (EvDo req res). split; [exact Hin | now left].
Qed.

Lemma deliveries_requests (s : Supervisor) (sig : string)
      (msgs : list sqs.Message) (w : W) :
  requests (deliveries urlSyntax s sig msgs w).2 =
  if urlParses urlSyntax (workerConfig s)
  then map (fun m => requestFor (workerConfig s) sig (sqs.Body m)) msgs
  else [].
Proof.
  revert w. induction msgs as [|m rest IH]; intros w.
  - cbn. now destruct (urlParses _ _).
  - rewrite deliveries_cons.
    pose proof (httpRequest_requests s sig (sqs.Body m) w) as Hreq.
    destruct (httpRequest _ _ _ _ w) as [[err w1] t1]. cbn [snd] in Hreq.
    specialize (IH w1).
    destruct (deliveries _ _ _ _ w1) as [[outs w2] t2]. cbn [snd] in *.
    rewrite !requests_app, Hreq, IH.
    assert (requests (failureLog err) = []) as -> by now destruct err.
    now destruct (urlParses _ _).
Qed.

Lemma acknowledge_requests (s : Supervisor)
      (es : list sqs.DeleteMessageBatchRequestEntry) (w : W) :
  requests (acknowledge s es w).2 = [].
Proof.
  rewrite acknowledge_run. destruct es; [reflexivity|].
  destruct (DeleteMessageBatch _ w) as [[e|] w1]; reflexivity.
Qed.

(** X1: when the target URL parses, a poll cycle sends one request per
    message of the batch, in receipt order, each the POST built for the
    body of its message, which goes out unchanged. *)
Theorem cycle_sends_each_message (s : Supervisor) (sig : string) (w w1 : W)
        (out : sqs.ReceiveMessageOutput) :
  urlParses urlSyntax (workerConfig s) = true ->
  ReceiveMessage (recInput s) w = (inl out, w1) ->
  requests (cycle urlSyntax s sig w).2
  = map (fun m => requestFor (workerConfig s) sig (sqs.Body m))
        (sqs.Messages out)
  /\ map http.Body (requests (cycle urlSyntax s sig w).2)
     = map sqs.Body (sqs.Messages out).
Proof.
  intros Hp Hrec.
  assert (requests (cycle urlSyntax s sig w).2
          = map (fun m => requestFor (workerConfig s) sig (sqs.Body m))
                (sqs.Messages out)) as Hreqs.
  { rewrite cycle_run, Hrec.
    destruct (sqs.Messages out) as [|m ms] eqn:Hm; [reflexivity|].
    pose proof (deliveries_requests s sig (m :: ms) w1) as Hd.
    destruct (deliveries _ _ _ _ w1) as [[outs w2] trD]. cbn [snd] in Hd.
    pose proof (acknowledge_requests s (delivered outs) w2) as Ha.
    destruct (acknowledge s (delivered outs) w2) as [[ctl w3] trA].
    cbn [snd] in *.
    change (requests (EvReceive (recInput s) (inl out) :: trD ++ trA))
      with (requests (trD ++ trA)).
    now rewrite requests_app, Hd, Ha, Hp, app_nil_r. }
  split; [exact Hreqs|]. rewrite Hreqs, map_map.
  apply map_ext. intros m. unfold requestFor.
  now destruct (decorate_fields (workerConfig s) sig (sqs.Body m)
                  (http.mkRequest "POST" (HTTPURL (workerConfig s))
                     (sqs.Body m) ∅)) as (_ & _ & ->).
Qed.

Lemma decorate_contentType (c : WorkerConfig) (sig body m u b : string) :
  http.Hdr (decorate c sig body (http.mkRequest m u b ∅))
    !! "Content-Type"%string
  = if (0 <? String.length (HTTPContentType c))%nat
    then Some [HTTPContentType c] else None.
Proof.
  unfold decorate, setHeader, http.Header_Set.
  change (textproto.CanonicalMIMEHeaderKey "MAC") with "Mac"%string.
  change (textproto.CanonicalMIMEHeaderKey "Content-Type")
    with "Content-Type"%string.
  destruct (0 <? length (SecretKey c))%nat;
    destruct (0 <? String.length (HTTPContentType c))%nat;
    cbn [http.Hdr];
    rewrite ?lookup_insert_eq; try reflexivity;
    rewrite ?(lookup_insert_ne _ "Mac"%string "Content-Type"%string) by done;
    now rewrite lookup_empty.
Qed.

(** The requests in the trace of a process are built by [httpRequest]
    under the signature of [Start]. *)
Lemma exec_requests (c : WorkerConfig) (ls : list Label)
      (q q' : Process (W := W)) :
  signatureInv c q ->
  (forall req, In req (requests (trace q)) ->
               urlParses urlSyntax c = true
               /\ exists body, req = requestFor c (signatureOf c) body) ->
  exec urlSyntax ls q = Some q' ->
  forall req, In req (requests (trace q')) ->
              urlParses urlSyntax c = true
              /\ exists body, req = requestFor c (signatureOf c) body.
Proof.
  revert q. induction ls as [|l ls IH]; intros q Hinv Hq; cbn [exec].
  - now intros [= <-].
  - destruct (step urlSyntax l q) as [q1|] eqn:Hstep; [|discriminate].
    apply IH; [eapply step_signatureInv; eassumption|].
    clear IH. intros req Hin. apply In_requests in Hin as [res Hin].
    destruct Hinv as (Hc & Hsig & _).
    destruct l as [n| | |i]; cbn in Hstep.
    + injection Hstep as <-.
      destruct (Start_fields n q) as (_ & _ & _ & _ & _ & _ & Htr).
      apply Hq, In_requests. eexists. eapply Htr, Hin.
    + injection Hstep as <-. apply Hq, In_requests. eexists; eassumption.
    + destruct (WaitReturns q); [|discriminate]. injection Hstep as <-.
      apply Hq, In_requests. eexists; eassumption.
    + apply goroutineStep_inv in Hstep
        as (pc & pc' & tr & Hi & _ & Hws & _ & _ & _ & _ & _ & _ & Htr).
      rewrite Htr in Hin.
      apply in_app_or in Hin as [Hin|Hin];
        [apply Hq, In_requests; eexists; eassumption|].
      apply in_app_or in Hin as [Hin|Hin].
      * assert (signature q = signatureOf c) as Hsq.
        { apply Hsig. intros Hnil. now rewrite Hnil in Hi. }
        assert (tr = (workerStep urlSyntax (sup q) (signature q) pc (world q)).2)
          as Htr' by now rewrite Hws.
        rewrite Htr' in Hin. apply workerStep_Do in Hin as (body & Hin).
        assert (In req (requests
                  (httpRequest urlSyntax (sup q) (signature q) body (world q)).2))
          as Hr by (apply In_requests; eexists; eassumption).
        rewrite httpRequest_requests, Hc, Hsq in Hr.
        destruct (urlParses urlSyntax c); [|destruct Hr].
        destruct Hr as [<-|[]]. split; [reflexivity | now exists body].
      * destruct (_ && _); [destruct Hin as [?|[]]; discriminate | destruct Hin].
Qed.

Lemma reachable_requests (c : WorkerConfig) (w : W) (ls : list Label)
      (p : Process (W := W)) (req : http.Request) :
  exec urlSyntax ls (initial c w) = Some p ->
  In req (requests (trace p)) ->
  urlParses urlSyntax c = true
  /\ exists body, req = requestFor c (signatureOf c) body.
Proof.
  intros Hex. eapply exec_requests; [apply initial_signatureInv | | exact Hex].
  intros ? [].
Qed.

(** X2: every request a process sends is a POST whose Content-Type
    header is set, to the configured content type, exactly when that is
    not empty, and which has no header field besides MAC and
    Content-Type. *)
Theorem requests_are_configured (c : WorkerConfig) (w : W) (ls : list Label)
        (p : Process (W := W)) (req : http.Request)
        (res : http.Response + error) :
  exec urlSyntax ls (initial c w) = Some p ->
  In (EvDo req res) (trace p) ->
  http.Method req = "POST"%string
  /\ http.Hdr req !! "Content-Type"%string
     = (if (0 <? String.length (HTTPContentType c))%nat
        then Some [HTTPContentType c] else None)
  /\ http.Header_Get (http.Hdr req) "Content-Type" = HTTPContentType c
  /\ (forall k, http.Hdr req !! k <> None ->
                k = "Mac"%string \/ k = "Content-Type"%string).
Proof.
  intros Hex Hin.
  destruct (reachable_requests c w ls p req Hex) as (_ & body & ->);
    [apply In_requests; eexists; eassumption|].
  unfold requestFor.
  destruct (decorate_fields c (signatureOf c) body
              (http.mkRequest "POST" (HTTPURL c) body ∅)) as (Hm & _ & _).
  pose proof (decorate_contentType c (signatureOf c) body "POST" (HTTPURL c) body)
    as Hct.
  split; [exact Hm|]. split; [exact Hct|]. split.
  - unfold http.Header_Get.
    change (textproto.CanonicalMIMEHeaderKey "Content-Type")
      with "Content-Type"%string.
    rewrite Hct. destruct (HTTPContentType c); reflexivity.
  - intros k. apply decorate_keys.
Qed.

(** X3: a process whose target URL does not parse never sends a request
    and never makes a delete call, whatever it receives. *)
Theorem unparsable_url_sends_nothing (c : WorkerConfig) (w : W)
        (ls : list Label) (p : Process (W := W)) :
  urlParses urlSyntax c = false ->
  exec urlSyntax ls (initial c w) = Some p ->
  sendsOrDeletes (trace p) = [].
Proof.
  intros Hp Hex.
  assert (forall req res, ~ In (EvDo req res) (trace p)) as Hno.
  { intros req res Hin.
    destruct (reachable_requests c w ls p req Hex) as [Hp' _];
      [apply In_requests; eexists; eassumption | congruence]. }
  destruct (reachable_ledgerInv urlSyntax c w ls p Hex) as (_ & Hord & _).
  unfold sendsOrDeletes.
  destruct (List.filter _ (trace p)) as [|e rest] eqn:Hf; [reflexivity|].
  exfalso.
  assert (In e (List.filter (fun e => isDo e || isDelete e) (trace p)))
    as Hin by (rewrite Hf; now left).
  apply filter_In in Hin as [Hin He].
  destruct e; try discriminate.
  - eapply Hno, Hin.
  - apply in_split in Hin as (pre & post & Htr).
    destruct (Ordered_split c _ pre post _ Hord Htr) as (_ & Hne & Hall).
    destruct (sqs.Entries input) as [|e0 es]; [contradiction|].
    destruct (Hall e0) as (m & _ & _ & req & r & Hin & _); [now left|].
    eapply Hno. rewrite Htr. apply in_or_app. left. exact Hin.
Qed.

(** X4: whatever a process sends was received before: the body of every
    request is the body of a message that an earlier receive call of
    the run returned. *)
Theorem requests_were_received (c : WorkerConfig) (w : W) (ls : list Label)
        (p : Process (W := W)) (pre post : list Event) (req : http.Request)
        (res : http.Response + error) :
  exec urlSyntax ls (initial c w) = Some p ->
  trace p = pre ++ EvDo req res :: post ->
  exists m, receivedIn pre m /\ http.Body req = sqs.Body m.
Proof.
  intros Hex Htr.
  destruct (reachable_ledgerInv urlSyntax c w ls p Hex) as (_ & Hord & _).
  exact (Ordered_split c _ pre post _ Hord Htr).
Qed.

(** X5: a process deletes only what it has delivered: every entry of
    every delete call is the identifier and receipt handle of a message
    that was received earlier in the run and for whose body a request
    was answered earlier with a status in [200, 226]. *)
Theorem deletes_were_delivered (c : WorkerConfig) (w : W) (ls : list Label)
        (p : Process (W := W)) (pre post : list Event)
        (input : sqs.DeleteMessageBatchInput) (r : option error)
        (e : sqs.DeleteMessageBatchRequestEntry) :
  exec urlSyntax ls (initial c w) = Some p ->
  trace p = pre ++ EvDelete input r :: post ->
  In e (sqs.Entries input) ->
  exists m, e = deleteEntry m /\ receivedIn pre m /\ acceptedIn pre m.
Proof.
  intros Hex Htr Hin.
  destruct (reachable_ledgerInv urlSyntax c w ls p Hex) as (_ & Hord & _).
  destruct (Ordered_split c _ pre post _ Hord Htr) as (_ & _ & Hall).
  now apply Hall.
Qed.

(** X6: every receive call of a process asks the configured queue for at
    most the configured number of messages with the configured wait
    time, and every delete call goes to the same queue and carries at
    least one entry. *)
Theorem queue_calls_are_configured (c : WorkerConfig) (w : W)
        (ls : list Label) (p : Process (W := W)) :
  exec urlSyntax ls (initial c w) = Some p ->
  (forall input r, In (EvReceive input r) (trace p) ->
                   input = receiveInput c)
  /\ (forall input r, In (EvDelete input r) (trace p) ->
                     sqs.DeleteQueueUrl input = QueueURL c
                     /\ sqs.Entries input <> []).
Proof.
  intros Hex.
  destruct (reachable_ledgerInv urlSyntax c w ls p Hex) as (_ & Hord & _).
  split; intros input r Hin; apply in_split in Hin as (pre & post & Htr).
  - exact (Ordered_split c _ pre post _ Hord Htr).
  - destruct (Ordered_split c _ pre post _ Hord Htr) as (Hq & Hne & _).
    now split.
Qed.

End Requests.

(** ** The counter of the wait group *)
Section Counter.
Import supervisor notions ledger.
Context {W : Type} `{!SQSAPI W} `{!httpClient W}.
Variable urlSyntax : string -> bool.

Lemma step_counter (l : Label) (p p' : Process (W := W)) :
  poolInv p -> 0 <= wg (sup p) ->
  (forall n, l = CallStart n -> 0 <= n) ->
  step urlSyntax l p = Some p' -> 0 <= wg (sup p').
Proof.
  intros (_ & Hwg & _) H0 Hn Hstep. destruct l as [n| | |i]; cbn in Hstep.
  - injection Hstep as <-. unfold Start, wgAdd.
    destruct (startOnce (sup p)); [exact H0|].
    specialize (Hn n eq_refl).
    destruct (wg (sup p) + n <? 0); cbn; lia.
  - now injection Hstep as <-.
  - destruct (WaitReturns p); [|discriminate]. now injection Hstep as <-.
  - apply goroutineStep_inv in Hstep
      as (pc & pc' & tr & Hi & Hne & _ & _ & _ & _ & _ & _ & -> & _).
    assert (isReturned pc = false) as Hpc by (destruct pc; cbn; congruence).
    destruct (live_insert (workers p) i pc pc' Hi Hpc) as [Hge _].
    destruct Hwg as [Hl|[? _]]; [|lia].
    destruct (isReturned pc'); lia.
Qed.

Lemma exec_counter (ls : list Label) (p p' : Process (W := W)) :
  poolInv p -> 0 <= wg (sup p) -> startsNonNegative ls ->
  exec urlSyntax ls p = Some p' -> 0 <= wg (sup p').
Proof.
  revert p. induction ls as [|l ls IH]; intros p Hinv H0 Hn; cbn [exec].
  - now intros [= <-].
  - destruct (step urlSyntax l p) as [p1|] eqn:Hstep; [|discriminate].
    apply IH.
    + eapply step_poolInv; eassumption.
    + eapply step_counter; try eassumption.
      intros n ->. apply Hn. now left.
    + intros n Hin. apply Hn. now right.
Qed.

(** The counter is the number of workers that have not returned. *)
Lemma counter_is_live (ls : list Label) (p p' : Process (W := W)) :
  poolInv p -> 0 <= wg (sup p) -> startsNonNegative ls ->
  exec urlSyntax ls p = Some p' ->
  poolInv p' /\ wg (sup p') = Z.of_nat (live (workers p')).
Proof.
  intros Hinv H0 Hn Hex.
  pose proof (exec_poolInv urlSyntax ls p p' Hinv Hex) as Hinv'.
  pose proof (exec_counter ls p p' Hinv H0 Hn Hex) as H0'.
  split; [exact Hinv'|].
  destruct Hinv' as (_ & [Hl|[? _]] & _); [exact Hl | lia].
Qed.

Lemma live_returned (ws : list PC) :
  Forall (fun pc => pc = pcReturned) ws -> live ws = O.
Proof. induction 1 as [|pc ws -> _ IH]; [reflexivity | exact IH]. Qed.

Lemma live_none_returned (ws : list PC) :
  ~ In pcReturned ws -> live ws = length ws.
Proof.
  induction ws as [|pc ws IH]; [reflexivity|]. intros Hno. cbn.
  rewrite IH by (intros Hin; apply Hno; now right).
  destruct pc; cbn; try reflexivity. elim Hno. now left.
Qed.

Lemma startsInRange_nonneg (ls : list Label) :
  startsInRange ls -> startsNonNegative ls.
Proof. intros Hr n Hin. apply Hr in Hin. lia. Qed.

(** X7: in a run whose calls of [Start] have counts from 0 to below
    2^31, [Wait] returns in a state exactly when every worker spawned so
    far has returned; in particular it returns at once before the first
    [Start] and after a [Start(0)]. *)
Theorem wait_returns_iff_all_returned (c : WorkerConfig) (w : W)
        (ls : list Label) (p : Process (W := W)) :
  startsInRange ls ->
  exec urlSyntax ls (initial c w) = Some p ->
  (WaitReturns p = true <-> Forall (fun pc => pc = pcReturned) (workers p))
  /\ (workers p = [] -> WaitReturns p = true).
Proof.
  intros Hn Hex. apply startsInRange_nonneg in Hn.
  destruct (counter_is_live ls (initial c w) p (initial_poolInv c w)
              (Z.le_refl 0) Hn Hex) as [_ Hl].
  unfold WaitReturns. rewrite Hl. split; [split|].
  - intros H0. apply live_zero. apply Z.eqb_eq in H0. lia.
  - intros Hall. rewrite (live_returned _ Hall). reflexivity.
  - intros ->. reflexivity.
Qed.

Lemma exec_no_shutdown (ls : list Label) (p p' : Process (W := W)) :
  shutdown (sup p) = false -> ~ In CallShutdown ls ->
  exec urlSyntax ls p = Some p' -> shutdown (sup p') = false.
Proof.
  revert p. induction ls as [|l ls IH]; intros p Hf Hno; cbn [exec].
  - now intros [= <-].
  - destruct (step urlSyntax l p) as [p1|] eqn:Hstep; [|discriminate].
    apply IH; [|intros Hin; apply Hno; now right].
    destruct l as [n| | |i]; cbn in Hstep.
    + injection Hstep as <-.
      destruct (Start_fields n p) as (_ & _ & -> & _). exact Hf.
    + elim Hno. now left.
    + destruct (WaitReturns p); [|discriminate]. now injection Hstep as <-.
    + apply goroutineStep_inv in Hstep
        as (pc & pc' & tr & _ & _ & _ & _ & _ & _ & _ & -> & _). exact Hf.
Qed.

(** X8: without a call of [Shutdown] no worker ever returns, and once
    there is a worker, [Wait] does not return: [main], which never calls
    [Shutdown], stays in [s.Wait()] for good. *)
Theorem no_shutdown_no_return (c : WorkerConfig) (w : W) (ls : list Label)
        (p : Process (W := W)) :
  ~ In CallShutdown ls ->
  exec urlSyntax ls (initial c w) = Some p ->
  ~ In pcReturned (workers p)
  /\ (workers p <> [] -> WaitReturns p = false).
Proof.
  intros Hno Hex.
  pose proof (exec_no_shutdown ls (initial c w) p eq_refl Hno Hex) as Hf.
  destruct (reachable_poolInv urlSyntax c w ls p Hex)
    as (_ & Hwg & _ & Hret & _).
  assert (~ In pcReturned (workers p)) as Hnr.
  { intros Hin. apply Hret in Hin. congruence. }
  split; [exact Hnr|]. intros Hne. unfold WaitReturns.
  destruct Hwg as [Hl|[_ ?]]; [|contradiction].
  rewrite Hl, (live_none_returned _ Hnr).
  destruct (workers p); [contradiction|]. reflexivity.
Qed.

(** X9: when [Shutdown] is called before anything else, no receive,
    delete or HTTP call is ever made: the workers of a later [Start]
    return at their first flag check. *)
Theorem shutdown_before_start (c : WorkerConfig) (w : W) (ls : list Label)
        (p : Process (W := W)) :
  exec urlSyntax (CallShutdown :: ls) (initial c w) = Some p ->
  calls (trace p) = []
  /\ Forall (fun pc => pc = pcEntry \/ pc = pcLoop \/ pc = pcReturned)
            (workers p).
Proof.
  cbn [exec step]. intros Hex.
  assert (quiet (Shutdown (initial c w))) as Hq by (split; [reflexivity | constructor]).
  destruct (exec_quiet urlSyntax ls _ p Hq Hex) as [[_ Hall] Hcalls].
  split; [exact Hcalls | exact Hall].
Qed.

(** *** Stopping the pool *)

Lemma goroutineStep_some (i : nat) (p : Process (W := W)) (pc : PC) :
  workers p !! i = Some pc -> pc <> pcReturned ->
  exists p', goroutineStep urlSyntax i p = Some p'.
Proof.
  intros Hi Hne. unfold goroutineStep. rewrite Hi.
  destruct (workerStep urlSyntax (sup p) (signature p) pc (world p))
    as [[pc' w'] tr].
  destruct pc; try congruence; destruct pc'; unfold wgAdd; now eexists.
Qed.

(** Where a step leads. *)
Lemma workerStep_next (s : Supervisor) (sig : string) (pc : PC) (w : W) :
  match pc with
  | pcEntry => (workerStep urlSyntax s sig pc w).1.1 = pcLoop
  | pcLoop =>
      (workerStep urlSyntax s sig pc w).1.1
      = if shutdown s then pcReturned else pcReceive
  | pcReceive =>
      (workerStep urlSyntax s sig pc w).1.1 = pcLoop
      \/ exists msgs, (workerStep urlSyntax s sig pc w).1.1 = pcDispatch msgs []
  | pcDispatch [] _ => (workerStep urlSyntax s sig pc w).1.1 = pcLoop
  | pcDispatch (_ :: rest) _ =>
      exists es, (workerStep urlSyntax s sig pc w).1.1 = pcDispatch rest es
  | pcReturned => True
  end.
Proof.
  destruct pc as [| | |[|m rest] es|]; unfold workerStep; rewrite ?bind_run.
  - reflexivity.
  - now destruct (shutdown s).
  - unfold sqsReceiveMessage. destruct (ReceiveMessage _ w) as [[out|e] w1].
    + destruct (length (sqs.Messages out) =? 0)%nat; [now left|].
      right. now eexists.
    + rewrite bind_run. now left.
  - destruct (acknowledge s es w) as [[ctl w1] tr]. reflexivity.
  - destruct (httpRequest _ _ _ _ w) as [[[e|] w1] tr]; rewrite ?bind_run;
      now eexists.
  - exact I.
Qed.

(** A worker that has not returned can take a step, which changes its
    own point in the list of workers and leaves the flag alone. *)
Lemma worker_can_step (i : nat) (p : Process (W := W)) (pc : PC) :
  workers p !! i = Some pc -> pc <> pcReturned ->
  exists p',
    step urlSyntax (Step i) p = Some p'
    /\ workers p'
       = <[i := (workerStep urlSyntax (sup p) (signature p) pc (world p)).1.1]>
           (workers p)
    /\ shutdown (sup p') = shutdown (sup p).
Proof.
  intros Hi Hne. destruct (goroutineStep_some i p pc Hi Hne) as [p' Hstep].
  exists p'. split; [exact Hstep|].
  apply goroutineStep_inv in Hstep
    as (pc0 & pc' & tr & Hi' & _ & Hws & _ & Hw' & _ & _ & Hsh & _).
  rewrite Hi in Hi'. injection Hi' as <-. rewrite Hws. now split.
Qed.

Lemma lookup_insert_same (ws : list PC) (i : nat) (pc pc' : PC) :
  ws !! i = Some pc -> <[i := pc']> ws !! i = Some pc'.
Proof.
  intros Hi. apply list_lookup_insert_eq. now apply lookup_lt_Some in Hi.
Qed.

(** From its range loop a worker reaches the top of the loop. *)
Lemma worker_ends_cycle (i : nat) (msgs : list sqs.Message) :
  forall (es : list sqs.DeleteMessageBatchRequestEntry) (p : Process (W := W)),
    workers p !! i = Some (pcDispatch msgs es) ->
    exists ls p',
      stepsOnly ls /\ exec urlSyntax ls p = Some p'
      /\ workers p' = <[i := pcLoop]> (workers p)
      /\ shutdown (sup p') = shutdown (sup p).
Proof.
  induction msgs as [|m rest IH]; intros es p Hi.
  - destruct (worker_can_step i p _ Hi) as (p' & Hstep & Hw & Hsh);
      [discriminate|].
    pose proof (workerStep_next (sup p) (signature p) (pcDispatch [] es) (world p))
      as Hnext. cbv beta iota in Hnext. rewrite Hnext in Hw.
    exists [Step i], p'. split; [repeat constructor|].
    split; [cbn [exec]; now rewrite Hstep|]. now split.
  - destruct (worker_can_step i p _ Hi) as (p1 & Hstep & Hw & Hsh);
      [discriminate|].
    destruct (workerStep_next (sup p) (signature p) (pcDispatch (m :: rest) es)
                (world p)) as [es' Hnext].
    rewrite Hnext in Hw.
    destruct (IH es' p1) as (ls & p' & Hls & Hex & Hw' & Hsh').
    { rewrite Hw. eapply lookup_insert_same, Hi. }
    exists (Step i :: ls), p'. split; [now constructor|].
    split; [cbn [exec]; now rewrite Hstep|]. split.
    + now rewrite Hw', Hw, list_insert_insert_eq.
    + now rewrite Hsh', Hsh.
Qed.

(** With the flag set, a worker that has not returned returns after
    steps of its own. *)
Lemma worker_returns (i : nat) (p : Process (W := W)) (pc : PC) :
  shutdown (sup p) = true ->
  workers p !! i = Some pc -> pc <> pcReturned ->
  exists ls p',
    stepsOnly ls /\ exec urlSyntax ls p = Some p'
    /\ workers p' = <[i := pcReturned]> (workers p)
    /\ shutdown (sup p') = true.
Proof.
  intros Hflag Hi Hne.
  assert (forall q : Process (W := W),
             shutdown (sup q) = true -> workers q !! i = Some pcLoop ->
             exists q', step urlSyntax (Step i) q = Some q'
                        /\ workers q' = <[i := pcReturned]> (workers q)
                        /\ shutdown (sup q') = true) as Hloop.
  { intros q Hq Hqi.
    destruct (worker_can_step i q _ Hqi) as (q' & Hstep & Hw & Hsh);
      [discriminate|].
    pose proof (workerStep_next (sup q) (signature q) pcLoop (world q)) as Hnext.
    cbv beta iota in Hnext. rewrite Hnext, Hq in Hw.
    exists q'. split; [exact Hstep|]. split; [exact Hw | now rewrite Hsh]. }
  assert (forall (ls : list Label) (q : Process (W := W)),
             stepsOnly ls -> exec urlSyntax ls p = Some q ->
             workers q = <[i := pcLoop]> (workers p) ->
             shutdown (sup q) = true ->
             exists ls' p',
               stepsOnly ls' /\ exec urlSyntax ls' p = Some p'
               /\ workers p' = <[i := pcReturned]> (workers p)
               /\ shutdown (sup p') = true) as Hfinish.
  { intros ls q Hls Hex Hw Hq.
    destruct (Hloop q Hq) as (q' & Hstep & Hw' & Hq').
    { rewrite Hw. eapply lookup_insert_same, Hi. }
    exists (ls ++ [Step i]), q'.
    split; [apply Forall_app; split; [exact Hls | repeat constructor]|].
    split; [rewrite exec_app, Hex; cbn [exec]; now rewrite Hstep|].
    split; [now rewrite Hw', Hw, list_insert_insert_eq | exact Hq']. }
  destruct pc as [| | |msgs es|]; [| | | |congruence].
  - destruct (worker_can_step i p _ Hi) as (p1 & Hstep & Hw & Hsh);
      [discriminate|].
    pose proof (workerStep_next (sup p) (signature p) pcEntry (world p)) as Hnext.
    cbv beta iota in Hnext. rewrite Hnext in Hw.
    apply (Hfinish [Step i] p1); [repeat constructor | | exact Hw | congruence].
    cbn [exec]. now rewrite Hstep.
  - destruct (Hloop p Hflag Hi) as (q' & Hstep & Hw' & Hq').
    exists [Step i], q'. split; [repeat constructor|].
    split; [cbn [exec]; now rewrite Hstep|]. now split.
  - destruct (worker_can_step i p _ Hi) as (p1 & Hstep & Hw & Hsh);
      [discriminate|].
    destruct (workerStep_next (sup p) (signature p) pcReceive (world p))
      as [Hnext|[msgs Hnext]]; rewrite Hnext in Hw.
    + apply (Hfinish [Step i] p1); [repeat constructor | | exact Hw | congruence].
      cbn [exec]. now rewrite Hstep.
    + destruct (worker_ends_cycle i msgs [] p1) as (ls & p2 & Hls & Hex & Hw2 & Hsh2).
      { rewrite Hw. eapply lookup_insert_same, Hi. }
      apply (Hfinish (Step i :: ls) p2); [now constructor | | | congruence].
      * cbn [exec]. now rewrite Hstep.
      * now rewrite Hw2, Hw, list_insert_insert_eq.
  - destruct (worker_ends_cycle i msgs es p Hi) as (ls & p2 & Hls & Hex & Hw2 & Hsh2).
    apply (Hfinish ls p2); [exact Hls | exact Hex | exact Hw2 | congruence].
Qed.

Lemma live_lookup (ws : list PC) :
  (0 < live ws)%nat -> exists i pc, ws !! i = Some pc /\ pc <> pcReturned.
Proof.
  induction ws as [|a ws IH]; cbn; [lia|].
  destruct a; cbn; try (intros _; exists O; eexists; split; [reflexivity | discriminate]).
  intros Hl. destruct (IH Hl) as (i & pc & Hi & Hne).
  exists (S i), pc. now split.
Qed.

(** With the flag set, the workers can all be run to their return. *)
Lemma pool_drains (n : nat) :
  forall p : Process (W := W),
    live (workers p) = n -> shutdown (sup p) = true ->
    exists ls p',
      stepsOnly ls /\ exec urlSyntax ls p = Some p'
      /\ live (workers p') = O.
Proof.
  induction n as [|n IH]; intros p Hl Hflag.
  - exists [], p. split; [constructor|]. now split.
  - destruct (live_lookup (workers p)) as (i & pc & Hi & Hne); [lia|].
    destruct (worker_returns i p pc Hflag Hi Hne)
      as (ls1 & p1 & Hls1 & Hex1 & Hw1 & Hflag1).
    assert (isReturned pc = false) as Hpc by (destruct pc; cbn; congruence).
    destruct (live_insert (workers p) i pc pcReturned Hi Hpc) as [_ Hl1].
    cbn [isReturned] in Hl1.
    destruct (IH p1) as (ls2 & p2 & Hls2 & Hex2 & Hl2);
      [rewrite Hw1, Hl1; lia | exact Hflag1 |].
    exists (ls1 ++ ls2), p2. split; [now apply Forall_app|].
    split; [now rewrite exec_app, Hex1 | exact Hl2].
Qed.

Lemma stepsOnly_starts (ls : list Label) :
  stepsOnly ls -> startsNonNegative ls.
Proof.
  intros Hls n Hin. unfold stepsOnly in Hls. rewrite Forall_forall in Hls.
  apply list_elem_of_In, Hls in Hin. discriminate.
Qed.

(** X10: the pool can always be stopped: from every state of a run whose
    calls of [Start] have counts from 0 to below 2^31 there is, after
    [Shutdown()], a sequence of worker steps after which [Wait()]
    returns with every worker returned. *)
Theorem graceful_stop_possible (c : WorkerConfig) (w : W) (ls : list Label)
        (p : Process (W := W)) :
  startsInRange ls ->
  exec urlSyntax ls (initial c w) = Some p ->
  exists ls' p',
    stepsOnly ls'
    /\ exec urlSyntax (CallShutdown :: ls' ++ [WaitReturn]) p = Some p'
    /\ Forall (fun pc => pc = pcReturned) (workers p').
Proof.
  intros Hn Hex. apply startsInRange_nonneg in Hn.
  destruct (counter_is_live ls (initial c w) p (initial_poolInv c w)
              (Z.le_refl 0) Hn Hex) as [Hinv Hl].
  assert (poolInv (Shutdown p)) as Hinv1
    by (eapply (step_poolInv urlSyntax CallShutdown); [exact Hinv | reflexivity]).
  destruct (pool_drains (live (workers (Shutdown p))) (Shutdown p) eq_refl eq_refl)
    as (ls' & p' & Hls' & Hex' & Hl').
  destruct (counter_is_live ls' (Shutdown p) p' Hinv1) as [_ Hwg'];
    [cbn; lia | now apply stepsOnly_starts | exact Hex' |].
  exists ls', p'. split; [exact Hls'|]. split.
  - cbn [exec step]. rewrite exec_app, Hex'. cbn [exec step].
    unfold WaitReturns. rewrite Hwg', Hl'. reflexivity.
  - now apply live_zero.
Qed.

End Counter.

(** ** The canonical prefix and the package variable *)
Section Prefix.
Import supervisor notions ledger.

Lemma append_inv_head (s t u : string) : s +:+ t = s +:+ u -> t = u.
Proof.
  induction s as [|a s IH]; [auto|]. rewrite !append_cons. intros [= H].
  now apply IH.
Qed.

Lemma append_snoc_inj (a b : string) (c : ascii) :
  a +:+ String c EmptyString = b +:+ String c EmptyString -> a = b.
Proof.
  revert b. induction a as [|x a IH]; intros [|y b].
  - reflexivity.
  - rewrite append_cons.
    change (EmptyString +:+ String c EmptyString) with (String c EmptyString).
    intros [= _ H]. destruct b; discriminate.
  - rewrite append_cons.
    change (EmptyString +:+ String c EmptyString) with (String c EmptyString).
    intros [= _ H]. destruct a; discriminate.
  - rewrite !append_cons. intros [= -> H]. f_equal. now apply IH.
Qed.

Lemma slashes_Repeat (t : string) :
  forallb (gostrings.inCutset "/") (list_ascii_of_string t) = true ->
  t = gostrings.Repeat "/" (String.length t).
Proof.
  induction t as [|a t IH]; [reflexivity|]. cbn [list_ascii_of_string forallb].
  intros [Ha Ht]%andb_true_iff. unfold gostrings.inCutset in Ha. cbn in Ha.
  rewrite orb_false_r in Ha. apply Ascii.eqb_eq in Ha as ->.
  cbn [String.length gostrings.Repeat]. rewrite <- (IH Ht). reflexivity.
Qed.

(** X11: two target URLs give the package variable the same canonical
    prefix exactly when they are one string followed by slashes, and
    the URL inside the prefix never ends in a slash. *)
Theorem same_prefix_iff_same_up_to_slashes (c1 c2 : WorkerConfig) :
  (signatureOf c1 = signatureOf c2 <->
   exists u n1 n2,
     HTTPURL c1 = u +:+ gostrings.Repeat "/" n1
     /\ HTTPURL c2 = u +:+ gostrings.Repeat "/" n2)
  /\ gostrings.lastByte (gostrings.TrimRight (HTTPURL c1) "/") <> Some "/"%char.
Proof.
  split; [split|].
  - unfold signatureOf. intros Heq.
    apply append_inv_head in Heq. unfold newline in Heq.
    apply append_snoc_inj in Heq.
    destruct (TrimRight_suffix (HTTPURL c1) "/") as (t1 & H1 & Ht1).
    destruct (TrimRight_suffix (HTTPURL c2) "/") as (t2 & H2 & Ht2).
    exists (gostrings.TrimRight (HTTPURL c1) "/"),
      (String.length t1), (String.length t2).
    rewrite <- (slashes_Repeat t1 Ht1), <- (slashes_Repeat t2 Ht2).
    split; [exact H1|]. rewrite Heq. exact H2.
  - intros (u & n1 & n2 & H1 & H2). unfold signatureOf.
    rewrite H1, H2, !TrimRight_Repeat by reflexivity. reflexivity.
  - intros Hlast. apply TrimRight_last in Hlast. discriminate.
Qed.

Context {W : Type} `{!SQSAPI W} `{!httpClient W}.
Variable urlSyntax : string -> bool.

(** X12: the canonical prefix lives in one package variable for all
    Supervisors of a program: after the [Start] of a Supervisor on
    another configuration, the requests of this one still go to its own
    URL but are signed with the URL of the other. *)
Theorem signature_is_shared (s : Supervisor) (c' : WorkerConfig)
        (sig0 : string) (n : Z) (w0 w : W) (body : string)
        (req : http.Request) (res : http.Response + error) :
  SecretKey (workerConfig s) <> [] ->
  In (EvDo req res)
     (httpRequest urlSyntax s
        (signature (Start n (mkProcess sig0 (NewSupervisor c') [] w0 [])))
        body w).2 ->
  http.URL req = HTTPURL (workerConfig s)
  /\ macHeader req
     = Some [sign (HTTPURL c') body (SecretKey (workerConfig s))].
Proof.
  intros Hkey.
  destruct (Start_fields n (mkProcess sig0 (NewSupervisor c') [] w0 []))
    as (-> & _).
  cbn [sup workerConfig NewSupervisor]. rewrite httpRequest_run.
  destruct (http.NewRequest _ _ _ _) as [req0|e] eqn:Hnew; [|intros []].
  apply NewRequest_inl in Hnew as ->. cbn zeta.
  destruct (Do _ w) as [r w']. cbn [snd].
  intros Hin. apply In_Do_run in Hin as [-> _].
  destruct (decorate_fields (workerConfig s) (signatureOf c') body
              (http.mkRequest "POST" (HTTPURL (workerConfig s)) body ∅))
    as (_ & Hu & _).
  split; [exact Hu|].
  rewrite decorate_macHeader, key_nonempty, bool_decide_eq_false_2 by exact Hkey.
  cbn [negb]. unfold getMac, sign, signatureOf, canonicalString.
  now rewrite !append_assoc.
Qed.

End Prefix.

(** ** From the environment to the requests *)
Section Main.
Import supervisor notions ledger simplesqsd.
Context {W : Type} `{!SQSAPI W} `{!httpClient W}.
Variable urlSyntax : string -> bool.

Lemma length_zero_empty (s : string) :
  (String.length s =? 0)%nat = true <-> s = EmptyString.
Proof. destruct s; cbn; split; congruence. Qed.

Lemma bytes_of_string_nil (s : string) :
  bytes_of_string s = [] <-> s = EmptyString.
Proof. destruct s; cbn; split; congruence. Qed.

(** The configuration [main] hands to the Supervisor. *)
Lemma main_started (env : os.Environ) (sessionErr : option error)
      (wConf : WorkerConfig) (n : Z) :
  main env sessionErr = StartSupervisor wConf n ->
  supervisor.QueueURL wConf = os.Getenv env "SQSD_QUEUE_URL"
  /\ supervisor.HTTPURL wConf = os.Getenv env "SQSD_HTTP_URL"
  /\ supervisor.HTTPContentType wConf
     = os.Getenv env "SQSD_HTTP_CONTENT_TYPE"
  /\ supervisor.SecretKey wConf
     = bytes_of_string (os.Getenv env "APP_API_SECRET_KEY").
Proof.
  unfold main.
  destruct (_ =? 0)%nat; [discriminate|].
  destruct (_ =? 0)%nat; [discriminate|].
  destruct (_ =? 0)%nat; [discriminate|].
  destruct sessionErr; [discriminate|]. intros [= <- _]. now repeat split.
Qed.

(** X13: [main] gets as far as [Start] exactly when the region, the queue
    URL and the target URL are set and not empty (and the AWS session
    can be made); it stops in [log.Fatal] on the first of the three that
    is missing, in this order, and the configuration it hands to the
    Supervisor holds the values of the environment unchanged. *)
Theorem main_requires_settings (env : os.Environ) (sessionErr : option error) :
  match main env sessionErr with
  | Fatal msg =>
      (os.Getenv env "SQSD_QUEUE_REGION" = EmptyString
       /\ msg = "SQSD_QUEUE_REGION cannot be empty"%string)
      \/ (os.Getenv env "SQSD_QUEUE_REGION" <> EmptyString
          /\ os.Getenv env "SQSD_QUEUE_URL" = EmptyString
          /\ msg = "SQSD_QUEUE_URL cannot be empty"%string)
      \/ (os.Getenv env "SQSD_QUEUE_REGION" <> EmptyString
          /\ os.Getenv env "SQSD_QUEUE_URL" <> EmptyString
          /\ os.Getenv env "SQSD_HTTP_URL" = EmptyString
          /\ msg = "SQSD_HTTP_URL cannot be empty"%string)
  | SessionPanic e => sessionErr = Some e
  | StartSupervisor wConf n =>
      sessionErr = None
      /\ os.Getenv env "SQSD_QUEUE_REGION" <> EmptyString
      /\ supervisor.QueueURL wConf = os.Getenv env "SQSD_QUEUE_URL"
      /\ supervisor.QueueURL wConf <> EmptyString
      /\ supervisor.HTTPURL wConf = os.Getenv env "SQSD_HTTP_URL"
      /\ supervisor.HTTPURL wConf <> EmptyString
      /\ supervisor.HTTPContentType wConf
         = os.Getenv env "SQSD_HTTP_CONTENT_TYPE"
      /\ supervisor.SecretKey wConf
         = bytes_of_string (os.Getenv env "APP_API_SECRET_KEY")
  end.
Proof.
  unfold main. cbn [readConfig QueueRegion simplesqsd.QueueURL simplesqsd.HTTPURL].
  destruct (String.length (os.Getenv env "SQSD_QUEUE_REGION") =? 0)%nat eqn:Hr.
  { left. apply length_zero_empty in Hr. now split. }
  assert (os.Getenv env "SQSD_QUEUE_REGION" <> EmptyString) as Hr'
    by (intros H; apply length_zero_empty in H; congruence).
  destruct (String.length (os.Getenv env "SQSD_QUEUE_URL") =? 0)%nat eqn:Hq.
  { right. left. apply length_zero_empty in Hq. now repeat split. }
  assert (os.Getenv env "SQSD_QUEUE_URL" <> EmptyString) as Hq'
    by (intros H; apply length_zero_empty in H; congruence).
  destruct (String.length (os.Getenv env "SQSD_HTTP_URL") =? 0)%nat eqn:Hh.
  { right. right. apply length_zero_empty in Hh. now repeat split. }
  assert (os.Getenv env "SQSD_HTTP_URL" <> EmptyString) as Hh'
    by (intros H; apply length_zero_empty in H; congruence).
  destruct sessionErr as [e|]; [reflexivity|].
  cbn. now repeat split.
Qed.

(** X14: the daemon as [main] starts it signs its requests exactly when
    APP_API_SECRET_KEY is set and not empty: each request then carries
    the tag of its body under that key for the URL of SQSD_HTTP_URL;
    with the variable unset or empty no request has a MAC header.  Each
    request goes to the URL of SQSD_HTTP_URL. *)
Theorem daemon_signs_iff_key_set (env : os.Environ)
        (wConf : WorkerConfig) (n : Z) (w : W) (ls : list Label)
        (p : Process (W := W)) (req : http.Request)
        (res : http.Response + error) :
  main env None = StartSupervisor wConf n ->
  exec urlSyntax (CallStart n :: ls) (initial wConf w) = Some p ->
  In (EvDo req res) (trace p) ->
  http.URL req = os.Getenv env "SQSD_HTTP_URL"
  /\ (os.Getenv env "APP_API_SECRET_KEY" = EmptyString ->
      macHeader req = None)
  /\ (os.Getenv env "APP_API_SECRET_KEY" <> EmptyString ->
      macHeader req
      = Some [sign (os.Getenv env "SQSD_HTTP_URL") (http.Body req)
                (bytes_of_string (os.Getenv env "APP_API_SECRET_KEY"))]).
Proof.
  intros Hmain Hex Hin.
  destruct (main_started env None wConf n Hmain) as (_ & Hu & _ & Hk).
  destruct (requests_good urlSyntax wConf w _ p req res Hex Hin)
    as (_ & Hurl & Hmac & _).
  rewrite key_nonempty, Hk, Hu in Hmac. rewrite Hurl, Hu.
  split; [reflexivity|]. split; intros Hkey.
  - rewrite bool_decide_eq_true_2 in Hmac by now apply bytes_of_string_nil.
    exact Hmac.
  - rewrite bool_decide_eq_false_2 in Hmac
      by (intros H; now apply bytes_of_string_nil in H).
    exact Hmac.
Qed.

End Main.

(** ** More on reading integers *)
Section GetEnvIntEdges.
Import notions ledger simplesqsd.

Lemma digits_stray (s : string) (c : ascii) (n : Z) :
  In c (list_ascii_of_string s) -> isDigitByte c = false ->
  strconv.digits s n = None.
Proof.
  revert n. induction s as [|a s IH]; intros n; [intros []|].
  cbn [list_ascii_of_string strconv.digits]. intros [->|Hin] Hc.
  - unfold isDigitByte in Hc.
    destruct (Z.leb_spec 48 (Z_of_ascii c)); destruct (Z.leb_spec (Z_of_ascii c) 57);
      try discriminate;
      destruct (Z.leb_spec 0 (Z_of_ascii c - 48));
      destruct (Z.leb_spec (Z_of_ascii c - 48) 9); try lia; reflexivity.
  - destruct (_ && _); [now apply IH | reflexivity].
Qed.

(** X15: [getEnvInt] does not trim or skip anything: a value with a byte
    that is neither a digit nor a sign (a blank, a letter, an
    underscore, a dot) gives the default. *)
Theorem getEnvInt_stray_byte (env : os.Environ) (key s : string) (def : Z)
        (c : ascii) :
  env !! key = Some s ->
  In c (list_ascii_of_string s) ->
  isDigitByte c = false -> c <> "+"%char -> c <> "-"%char ->
  getEnvInt env key def = def.
Proof.
  intros Hk Hin Hc Hp Hm. unfold getEnvInt, os.Getenv. rewrite Hk.
  change (default EmptyString (Some s)) with s. unfold strconv.Atoi.
  destruct s as [|a t]; [reflexivity|].
  set (rest := if Ascii.eqb a "-" || Ascii.eqb a "+" then t else String a t).
  assert (In c (list_ascii_of_string rest)) as Hrest.
  { subst rest. destruct (Ascii.eqb_spec a "-") as [->|_]; cbn [orb].
    - destruct Hin as [?|?]; [congruence | assumption].
    - destruct (Ascii.eqb_spec a "+") as [->|_]; [|exact Hin].
      destruct Hin as [?|?]; [congruence | assumption]. }
  destruct rest as [|b r] eqn:Hr; [reflexivity|].
  now rewrite (digits_stray (String b r) c 0 Hrest Hc).
Qed.

Lemma Atoi_DecimalInt (s : string) (v : Z) :
  DecimalInt s v ->
  strconv.Atoi s =
  if v <? strconv.minInt then (strconv.minInt, Some strconv.ErrRange)
  else if strconv.maxInt <? v then (strconv.maxInt, Some strconv.ErrRange)
       else (v, None).
Proof.
  intros Hdec. unfold strconv.Atoi.
  destruct Hdec as [s v Hd|s v Hd|s v Hd];
    pose proof (Decimal_digits s v Hd) as Hdig;
    destruct (Decimal_head s v Hd) as (d & t & -> & Hd0).
  - destruct (digit_not_sign d Hd0) as [-> ->]. cbn [orb]. now rewrite Hdig.
  - change (Ascii.eqb "+" "-") with false. change (Ascii.eqb "+" "+") with true.
    cbn [orb]. now rewrite Hdig.
  - change (Ascii.eqb "-" "-") with true. cbn [orb]. now rewrite Hdig.
Qed.

(** X16: a decimal numeral whose value does not fit Go's [int] (below
    -2^63 or above 2^63 - 1) gives the default, not a clamped or
    wrapped value. *)
Theorem getEnvInt_out_of_range (env : os.Environ) (key s : string)
        (def v : Z) :
  env !! key = Some s ->
  DecimalInt s v ->
  v < strconv.minInt \/ strconv.maxInt < v ->
  getEnvInt env key def = def.
Proof.
  intros Hk Hdec Hv. unfold getEnvInt, os.Getenv. rewrite Hk.
  change (default EmptyString (Some s)) with s.
  rewrite (Atoi_DecimalInt s v Hdec).
  destruct (Z.ltb_spec v strconv.minInt); [reflexivity|].
  destruct (Z.ltb_spec strconv.maxInt v); [reflexivity | lia].
Qed.

End GetEnvIntEdges.

(** ** The further properties on the scenario *)

Lemma cycle_sends_witness :
  let s := supervisor.NewSupervisor scenario.unsignedConf in
  ledger.urlParses scenario.anyURL (supervisor.workerConfig s) = true
  /\ map http.Body
       (ledger.requests (supervisor.cycle scenario.anyURL s "" runs.twoMessages).2)
     = ["500"; "204"]%string.
Proof.
  intros s.
  assert (ledger.urlParses scenario.anyURL (supervisor.workerConfig s) = true)
    as Hp by reflexivity.
  split; [exact Hp|].
  assert (supervisor.ReceiveMessage (supervisor.recInput s) runs.twoMessages
          = (inl (sqs.mkReceiveOutput
                    [scenario.msg "500" "A"; scenario.msg "204" "B"]),
             scenario.idle)) as Hrec by reflexivity.
  destruct (cycle_sends_each_message scenario.anyURL s "" runs.twoMessages
              scenario.idle _ Hp Hrec) as [_ ->].
  reflexivity.
Defined.

Lemma requests_configured_witness :
  match supervisor.exec scenario.anyURL scenario.firstDelivery
          (supervisor.initial scenario.signedConf scenario.signedWorld) with
  | Some p =>
      In (supervisor.EvDo scenario.signedRequest (inr "connection refused"%string))
         (supervisor.trace p)
      /\ http.Method scenario.signedRequest = "POST"%string
      /\ http.Header_Get (http.Hdr scenario.signedRequest) "Content-Type"
         = "application/json"%string
  | None => False
  end.
Proof.
  destruct (supervisor.exec scenario.anyURL scenario.firstDelivery
              (supervisor.initial scenario.signedConf scenario.signedWorld))
    as [p|] eqn:E; [|vm_compute in E; discriminate].
  assert (In (supervisor.EvDo scenario.signedRequest (inr "connection refused"%string))
             (supervisor.trace p)) as Hin.
  { pose proof E as E'. vm_compute in E'. injection E' as <-.
    vm_compute. right. right. now left. }
  split; [exact Hin|].
  destruct (requests_are_configured scenario.anyURL scenario.signedConf
              scenario.signedWorld scenario.firstDelivery p
              scenario.signedRequest _ E Hin) as (Hm & _ & Hct & _).
  split; [exact Hm | exact Hct].
Defined.

Lemma unparsable_url_witness :
  ledger.urlParses scenario.anyURL runs.brokenConf = false
  /\ match supervisor.exec scenario.anyURL runs.fullCycle
             (supervisor.initial runs.brokenConf runs.twoMessages) with
     | Some p => ledger.sendsOrDeletes (supervisor.trace p) = []
     | None => False
     end.
Proof.
  assert (ledger.urlParses scenario.anyURL runs.brokenConf = false) as Hp
    by (vm_compute; reflexivity).
  split; [exact Hp|].
  destruct (supervisor.exec scenario.anyURL runs.fullCycle
              (supervisor.initial runs.brokenConf runs.twoMessages))
    as [p|] eqn:E; [|vm_compute in E; discriminate].
  exact (unparsable_url_sends_nothing scenario.anyURL runs.brokenConf
           runs.twoMessages runs.fullCycle p Hp E).
Defined.

Lemma requests_received_witness :
  match supervisor.exec scenario.anyURL runs.fullCycle
          (supervisor.initial scenario.unsignedConf runs.twoMessages) with
  | Some p =>
      exists m, ledger.receivedIn (firstn 5 (supervisor.trace p)) m
                /\ "204"%string = sqs.Body m
  | None => False
  end.
Proof.
  destruct (supervisor.exec scenario.anyURL runs.fullCycle
              (supervisor.initial scenario.unsignedConf runs.twoMessages))
    as [p|] eqn:E; [|vm_compute in E; discriminate].
  pose proof E as E'. vm_compute in E'. injection E' as <-.
  eapply (requests_were_received scenario.anyURL scenario.unsignedConf
            runs.twoMessages runs.fullCycle _ _ _
            (http.mkRequest "POST" "https://example.com/hook/" "204" _) _ E).
  vm_compute. reflexivity.
Defined.

Lemma deletes_delivered_witness :
  match supervisor.exec scenario.anyURL runs.fullCycle
          (supervisor.initial scenario.unsignedConf runs.twoMessages) with
  | Some p =>
      exists m,
        sqs.mkEntry "B" "rh-B" = supervisor.deleteEntry m
        /\ ledger.receivedIn (firstn 7 (supervisor.trace p)) m
        /\ ledger.acceptedIn (firstn 7 (supervisor.trace p)) m
  | None => False
  end.
Proof.
  destruct (supervisor.exec scenario.anyURL runs.fullCycle
              (supervisor.initial scenario.unsignedConf runs.twoMessages))
    as [p|] eqn:E; [|vm_compute in E; discriminate].
  pose proof E as E'. vm_compute in E'. injection E' as <-.
  eapply (deletes_were_delivered scenario.anyURL scenario.unsignedConf
            runs.twoMessages runs.fullCycle _ _ []
            (sqs.mkDeleteInput [sqs.mkEntry "B" "rh-B"] "https://sqs.example/q")
            None _ E).
  - vm_compute. reflexivity.
  - now left.
Defined.

Lemma queue_calls_witness :
  match supervisor.exec scenario.anyURL runs.fullCycle
          (supervisor.initial scenario.unsignedConf runs.twoMessages) with
  | Some p =>
      forall input r,
        In (supervisor.EvDelete input r) (supervisor.trace p) ->
        sqs.DeleteQueueUrl input = "https://sqs.example/q"%string
        /\ sqs.Entries input <> []
  | None => False
  end.
Proof.
  destruct (supervisor.exec scenario.anyURL runs.fullCycle
              (supervisor.initial scenario.unsignedConf runs.twoMessages))
    as [p|] eqn:E; [|vm_compute in E; discriminate].
  exact (proj2 (queue_calls_are_configured scenario.anyURL scenario.unsignedConf
                  runs.twoMessages runs.fullCycle p E)).
Defined.

Lemma starts_in_range_stopped : ledger.startsInRange runs.stopped.
Proof.
  intros n Hin. cbn in Hin.
  repeat (destruct Hin as [Hin|Hin];
          [first [discriminate Hin
                 | injection Hin as <-; split; [lia | reflexivity]]|]).
  destruct Hin.
Qed.

Lemma wait_returns_witness :
  ledger.startsInRange runs.stopped
  /\ match supervisor.exec scenario.anyURL runs.stopped
             (supervisor.initial scenario.unsignedConf scenario.idle) with
     | Some p => supervisor.WaitReturns p = true
     | None => False
     end.
Proof.
  split; [exact starts_in_range_stopped|].
  destruct (supervisor.exec scenario.anyURL runs.stopped
              (supervisor.initial scenario.unsignedConf scenario.idle))
    as [p|] eqn:E; [|vm_compute in E; discriminate].
  destruct (wait_returns_iff_all_returned scenario.anyURL scenario.unsignedConf
              scenario.idle runs.stopped p starts_in_range_stopped E)
    as [[_ H] _].
  apply H. pose proof E as E'. vm_compute in E'. injection E' as <-.
  repeat constructor.
Defined.

Lemma no_shutdown_witness :
  ~ In supervisor.CallShutdown runs.fullCycle
  /\ match supervisor.exec scenario.anyURL runs.fullCycle
             (supervisor.initial scenario.unsignedConf runs.twoMessages) with
     | Some p => supervisor.WaitReturns p = false
     | None => False
     end.
Proof.
  assert (~ In supervisor.CallShutdown runs.fullCycle) as Hno.
  { cbn. intros H. repeat (destruct H as [H|H]; [discriminate|]). destruct H. }
  split; [exact Hno|].
  destruct (supervisor.exec scenario.anyURL runs.fullCycle
              (supervisor.initial scenario.unsignedConf runs.twoMessages))
    as [p|] eqn:E; [|vm_compute in E; discriminate].
  destruct (no_shutdown_no_return scenario.anyURL scenario.unsignedConf
              runs.twoMessages runs.fullCycle p Hno E) as [_ H].
  apply H. pose proof E as E'. vm_compute in E'. injection E' as <-.
  discriminate.
Defined.

Lemma shutdown_first_witness :
  match supervisor.exec scenario.anyURL
          (supervisor.CallShutdown :: runs.lateStart)
          (supervisor.initial scenario.unsignedConf runs.twoMessages) with
  | Some p => supervisor.calls (supervisor.trace p) = []
  | None => False
  end.
Proof.
  destruct (supervisor.exec scenario.anyURL
              (supervisor.CallShutdown :: runs.lateStart)
              (supervisor.initial scenario.unsignedConf runs.twoMessages))
    as [p|] eqn:E; [|vm_compute in E; discriminate].
  exact (proj1 (shutdown_before_start scenario.anyURL scenario.unsignedConf
                  runs.twoMessages runs.lateStart p E)).
Defined.

Lemma starts_in_range_firstDelivery :
  ledger.startsInRange scenario.firstDelivery.
Proof.
  intros n Hin. cbn in Hin.
  repeat (destruct Hin as [Hin|Hin];
          [first [discriminate Hin
                 | injection Hin as <-; split; [lia | reflexivity]]|]).
  destruct Hin.
Qed.

Lemma graceful_stop_witness :
  ledger.startsInRange scenario.firstDelivery
  /\ match supervisor.exec scenario.anyURL scenario.firstDelivery
             (supervisor.initial scenario.signedConf scenario.signedWorld) with
     | Some p =>
         exists ls' p',
           ledger.stepsOnly ls'
           /\ supervisor.exec scenario.anyURL
                (supervisor.CallShutdown :: ls' ++ [supervisor.WaitReturn]) p
              = Some p'
           /\ Forall (fun pc => pc = supervisor.pcReturned)
                     (supervisor.workers p')
     | None => False
     end.
Proof.
  split; [exact starts_in_range_firstDelivery|].
  destruct (supervisor.exec scenario.anyURL scenario.firstDelivery
              (supervisor.initial scenario.signedConf scenario.signedWorld))
    as [p|] eqn:E; [|vm_compute in E; discriminate].
  exact (graceful_stop_possible scenario.anyURL scenario.signedConf
           scenario.signedWorld scenario.firstDelivery p
           starts_in_range_firstDelivery E).
Defined.

Lemma signature_shared_witness :
  supervisor.SecretKey scenario.signedConf <> []
  /\ forall req res,
       In (supervisor.EvDo req res)
          (supervisor.httpRequest scenario.anyURL
             (supervisor.NewSupervisor scenario.signedConf)
             (supervisor.signature
                (supervisor.Start 1
                   (supervisor.mkProcess ""
                      (supervisor.NewSupervisor runs.otherConf) []
                      scenario.idle [])))
             "payload" scenario.idle).2 ->
       http.URL req = "https://example.com/hook/"%string
       /\ notions.macHeader req
          = Some [notions.sign "https://other.example/in" "payload"
                    (bytes_of_string "s3cr3t")].
Proof.
  assert (supervisor.SecretKey scenario.signedConf <> []) as Hkey by discriminate.
  split; [exact Hkey|]. intros req res.
  exact (signature_is_shared scenario.anyURL
           (supervisor.NewSupervisor scenario.signedConf) runs.otherConf ""
           1 scenario.idle scenario.idle "payload" req res Hkey).
Defined.

Lemma daemon_signs_witness :
  simplesqsd.main runs.signedEnv None
  = simplesqsd.StartSupervisor scenario.signedConf 50
  /\ match supervisor.exec scenario.anyURL runs.daemonRun
             (supervisor.initial scenario.signedConf scenario.signedWorld) with
     | Some p =>
         In (supervisor.EvDo scenario.signedRequest
               (inr "connection refused"%string)) (supervisor.trace p)
         /\ notions.macHeader scenario.signedRequest
            = Some [notions.sign "https://example.com/hook/" "payload"
                      (bytes_of_string "s3cr3t")]
     | None => False
     end.
Proof.
  assert (simplesqsd.main runs.signedEnv None
          = simplesqsd.StartSupervisor scenario.signedConf 50) as Hmain
    by (vm_compute; reflexivity).
  split; [exact Hmain|].
  destruct (supervisor.exec scenario.anyURL runs.daemonRun
              (supervisor.initial scenario.signedConf scenario.signedWorld))
    as [p|] eqn:E; [|vm_compute in E; discriminate].
  assert (In (supervisor.EvDo scenario.signedRequest
                (inr "connection refused"%string)) (supervisor.trace p)) as Hin.
  { pose proof E as E'. vm_compute in E'. injection E' as <-.
    vm_compute. right. right. now left. }
  split; [exact Hin|].
  destruct (daemon_signs_iff_key_set scenario.anyURL runs.signedEnv
              scenario.signedConf 50 scenario.signedWorld
              (repeat (supervisor.Step 7) 4) p scenario.signedRequest _
              Hmain E Hin) as (_ & _ & H).
  apply H. vm_compute. discriminate.
Defined.

Lemma getEnvInt_stray_witness :
  runs.blankEnv !! "SQSD_HTTP_MAX_CONNS"%string = Some " 5"%string
  /\ simplesqsd.getEnvInt runs.blankEnv "SQSD_HTTP_MAX_CONNS" 50 = 50.
Proof.
  assert (runs.blankEnv !! "SQSD_HTTP_MAX_CONNS"%string = Some " 5"%string)
    as Hk by (vm_compute; reflexivity).
  split; [exact Hk|].
  apply (getEnvInt_stray_byte runs.blankEnv "SQSD_HTTP_MAX_CONNS" " 5" 50
           " "%char Hk); [now left | reflexivity | discriminate | discriminate].
Defined.

Lemma getEnvInt_range_witness :
  runs.hugeEnv !! "SQSD_HTTP_MAX_CONNS"%string
  = Some "9223372036854775808"%string
  /\ notions.DecimalInt "9223372036854775808" 9223372036854775808
  /\ simplesqsd.getEnvInt runs.hugeEnv "SQSD_HTTP_MAX_CONNS" 50 = 50.
Proof.
  assert (runs.hugeEnv !! "SQSD_HTTP_MAX_CONNS"%string
          = Some "9223372036854775808"%string) as Hk by (vm_compute; reflexivity).
  assert (notions.DecimalInt "9223372036854775808" 9223372036854775808) as Hd.
  { apply notions.DecimalInt_plain.
    destruct (digits_Decimal "9223372036854775808" 0 9223372036854775808)
      as (u & Hu & Hv); [discriminate | reflexivity |].
    rewrite Z.mul_0_l, Z.add_0_l in Hv. now subst. }
  split; [exact Hk|]. split; [exact Hd|].
  apply (getEnvInt_out_of_range runs.hugeEnv "SQSD_HTTP_MAX_CONNS" _ 50 _ Hk Hd).
  right. reflexivity.
Defined.
